(** * The shader [Pass] record of lazurite: binary codec, descriptor codec,
      sorting, merging and flag definitions.

    Source: [src/lazurite/material/shader_pass/shader_pass.py], class [Pass].
    The collaborators the class imports ([util], [Variant], [BlendMode],
    [SupportedPlatforms]) live in other files of the package: [util] is
    modelled from the byte layout of the specification, the three classes are
    parameters of the development. *)

From Stdlib Require Import ZArith List String Ascii Bool Sorted Permutation Lia.
From Stdlib Require Import Strings.Byte.
From stdpp Require Import base tactics option list strings gmap.
From stdpp Require sorting.

Local Open Scope Z_scope.

(** ** Python values the class manipulates *)

(** Exceptions, named as section 7 of the specification names them.
    [EncodeError] is the [struct.error] of packing an integer that does not
    fit its field; [TypeError] is raised for a descriptor value of the wrong
    JSON type, which the typed record [Pass] cannot hold. *)
Inductive exn : Set :=
  | DecodeError
  | EncodeError
  | UnknownCodeError
  | UnknownBlendModeError
  | TypeError
  | CollaboratorError (tag : nat).

Inductive result (A : Type) : Type :=
  | Ok (a : A)
  | Err (e : exn).
Arguments Ok {A} a.
Arguments Err {A} e.

Definition result_bind {A B} (f : A -> result B) (m : result A) : result B :=
  match m with
  | Ok a => f a
  | Err e => Err e
  end.

#[global] Instance result_mbind : MBind result := @result_bind.
#[global] Instance result_mret : MRet result := @Ok.

Definition from_lookup {A} (e : exn) (o : option A) : result A :=
  match o with
  | Some a => Ok a
  | None => Err e
  end.

(** [[f(x) for x in l]] with a fallible [f]: elements are evaluated left to
    right and the first exception aborts the comprehension. *)
Fixpoint traverse {A B} (f : A -> result B) (l : list A) : result (list B) :=
  match l with
  | [] => Ok []
  | x :: l' => y ← f x; ys ← traverse f l'; Ok (y :: ys)
  end.

(** A JSON tree, as [json.load] produces it. *)
#[local] Set Warnings "-register-all".
Inductive json : Type :=
  | JNull
  | JBool (b : bool)
  | JNum (n : Z)
  | JStr (s : string)
  | JArr (l : list json)
  | JObj (kv : list (string * json)).

(** Python truthiness of a JSON value ([if mode]). *)
Definition truthy (j : json) : bool :=
  match j with
  | JNull => false
  | JBool b => b
  | JNum n => negb (n =? 0)
  | JStr s => negb (String.eqb s "")
  | JArr l => negb (Nat.eqb (length l) 0)
  | JObj kv => negb (Nat.eqb (length kv) 0)
  end.

(** ** Insertion-ordered dictionaries with string keys

    A Python [dict] keeps its keys in insertion order, and that order is
    what [write], [str] and [sorted] observe; equality ignores it. *)
Module Dict.

Definition dict (V : Type) : Type := list (string * V).

Definition keys {V} (d : dict V) : list string := fst <$> d.

(** The invariant of a Python dictionary: no key occurs twice. *)
Definition wf {V} (d : dict V) : Prop := NoDup (keys d).

Fixpoint get {V} (k : string) (d : dict V) : option V :=
  match d with
  | [] => None
  | (k', v) :: d' => if String.eqb k k' then Some v else get k d'
  end.

Definition mem {V} (k : string) (d : dict V) : bool :=
  match get k d with Some _ => true | None => false end.

(** [d[k] = v]: an existing key keeps its position, a new key goes last. *)
Fixpoint set {V} (k : string) (v : V) (d : dict V) : dict V :=
  match d with
  | [] => [(k, v)]
  | (k', v') :: d' =>
      if String.eqb k k' then (k', v) :: d' else (k', v') :: set k v d'
  end.

(** [dict(items)] and the dict comprehension: insert left to right. *)
Definition of_items {V} (l : list (string * V)) : dict V :=
  fold_left (fun d kv => set (fst kv) (snd kv) d) l [].

(** [d1 == d2]: same number of keys, and every key of [d1] is bound to an
    equal value in [d2]. *)
Definition eqb {V} (veqb : V -> V -> bool) (d1 d2 : dict V) : bool :=
  Nat.eqb (length d1) (length d2)
  && forallb (fun kv => match get (fst kv) d2 with
                        | Some v => veqb (snd kv) v
                        | None => false
                        end) d1.

End Dict.
Import Dict.

(** ** [sorted] and [list.sort]

    Python sorts stably and compares with [<] only. *)
Section Sorting.
Context {A : Type} (lt : A -> A -> bool).

Fixpoint insert_sorted (x : A) (l : list A) : list A :=
  match l with
  | [] => [x]
  | y :: l' => if lt y x then y :: insert_sorted x l' else x :: y :: l'
  end.

Definition sorted (l : list A) : list A := fold_right insert_sorted [] l.

(** [x] may stand before [y]: [y] is not smaller. *)
Definition in_order (x y : A) : Prop := lt y x = false.

End Sorting.

(** [<] on tuples [(key, value)] of strings. *)
Definition item_ltb (a b : string * string) : bool :=
  if String.eqb (fst a) (fst b) then String.ltb (snd a) (snd b)
  else String.ltb (fst a) (fst b).

(** The key of the first item is not greater than the key of the second. *)
Definition key_le (a b : string * string) : Prop :=
  String.leb (fst a) (fst b) = true.

(** ** [util]: the primitive readers and writers *)
Module util.

Definition byte_of_Z (z : Z) : byte :=
  match Byte.of_N (Z.to_N z) with
  | Some b => b
  | None => x00
  end.

Definition Z_of_byte (b : byte) : Z := Z.of_N (Byte.to_N b).

(** Modelled from the spec: [util] is not among the sources. Section 6:
    all integers little-endian; here the two bytes of a 16-bit unsigned
    integer. *)
Definition enc_ushort (n : Z) : list byte :=
  [byte_of_Z (n mod 256); byte_of_Z (n / 256)].

(** Modelled from the spec: [util.write_ushort]; an integer outside
    0..65535 cannot be packed. *)
Definition write_ushort (n : Z) : result (list byte) :=
  if (0 <=? n) && (n <=? 65535) then Ok (enc_ushort n) else Err EncodeError.

(** Modelled from the spec: [util.read_ushort]; a truncated stream is a
    [DecodeError]. *)
Definition read_ushort (file : list byte) : result (Z * list byte) :=
  match file with
  | b0 :: b1 :: rest => Ok (Z_of_byte b0 + 256 * Z_of_byte b1, rest)
  | _ => Err DecodeError
  end.

(** Modelled from the spec: [util.write_bool], one boolean flag byte. *)
Definition write_bool (b : bool) : list byte := [if b then x01 else x00].

(** Modelled from the spec: [util.read_bool], one boolean flag byte; any
    non-zero byte is true. *)
Definition read_bool (file : list byte) : result (bool * list byte) :=
  match file with
  | b :: rest => Ok (negb (Byte.eqb b x00), rest)
  | [] => Err DecodeError
  end.

(** A [str] is represented by its UTF-8 encoding, one [ascii] per byte;
    [blen] is the encoded length. *)
Definition blen (s : string) : Z :=
  Z.of_nat (length (list_byte_of_string s)).

Definition enc_string (s : string) : list byte :=
  enc_ushort (blen s) ++ list_byte_of_string s.

(** Modelled from the spec: [util.write_string], a 16-bit length prefix
    followed by the UTF-8 bytes. *)
Definition write_string (s : string) : result (list byte) :=
  n ← write_ushort (blen s);
  Ok (n ++ list_byte_of_string s).

(** Modelled from the spec: [util.read_string]; a stream shorter than the
    announced length is a [DecodeError]. *)
Definition read_string (file : list byte) : result (string * list byte) :=
  '(n, file) ← read_ushort file;
  if Z.of_nat (length file) <? n then Err DecodeError
  else Ok (string_of_list_byte (take (Z.to_nat n) file),
           drop (Z.to_nat n) file).

End util.

Import util.

(** ** The collaborators of [Pass]

    [BlendMode], [SupportedPlatforms] and [Variant] are classes of other
    files of the package. [Pass] uses them through the operations below. *)

(** Modelled from the spec: the enumeration [BlendMode] is not among the
    sources. Section 1: a closed set of named integer codes. [Pass] uses a
    member's [name] and [value], the subscript of the class
    ([BlendMode[key]], in [read]) and the call of the class
    ([BlendMode(key)], in [load]). A lookup that finds nothing is [None]
    here; [read] and [load] turn it into the exception sections 4 and 7
    name. *)
Class BlendModeTable (BlendMode : Type) := {
  BlendMode_eq_dec :: EqDecision BlendMode;
  (** [BlendMode.Unspecified] *)
  Unspecified : BlendMode;
  (** [mode.value] *)
  BlendMode_value : BlendMode -> Z;
  (** [mode.name] *)
  BlendMode_name : BlendMode -> string;
  (** [BlendMode[key]] for the integer [read] took from the stream, [None]
      when the subscript raises *)
  BlendMode_getitem : Z -> option BlendMode;
  (** [BlendMode(mode)] for the descriptor value, [None] when the call
      raises *)
  BlendMode_call : json -> option BlendMode
}.

Class PlatformSet (SupportedPlatforms : Type) := {
  (** [SupportedPlatforms()] *)
  SupportedPlatforms_init : SupportedPlatforms;
  (** [SupportedPlatforms(bit_string)] *)
  SupportedPlatforms_new : string -> result SupportedPlatforms;
  get_bit_string : SupportedPlatforms -> string;
  SupportedPlatforms_serialize : SupportedPlatforms -> json;
  (** [platforms.load(object)], returning the updated object *)
  SupportedPlatforms_load : SupportedPlatforms -> json -> result SupportedPlatforms
}.

(** A [Variant] exposes its [flags] mapping; [body] stands for the rest of
    its state (the shaders). *)
Record Variant (Body : Type) : Type := mkVariant {
  flags : dict string;
  body : Body
}.
Arguments mkVariant {Body} flags body.
Arguments flags {Body} v.
Arguments body {Body} v.

Class VariantOps (Body : Type) := {
  (** [Variant().read(file)]: the variant and the rest of the stream *)
  Variant_read : list byte -> result (Variant Body * list byte);
  (** [variant.write(file)]: the bytes appended to the stream *)
  Variant_write : Variant Body -> result (list byte);
  (** [variant.serialize_properties(index)] *)
  Variant_serialize_properties : Variant Body -> nat -> json;
  (** [Variant().load(object, path)] *)
  Variant_load : json -> string -> result (Variant Body);
  (** [matching.merge_variant(other)]: the state of [matching] afterwards *)
  merge_variant : Variant Body -> Variant Body -> Variant Body
}.

(** Functions of the Python library whose result depends on tables or on the
    platform: [repr] of a [str] and [os.path.join] of two components. *)
Class PyLib := {
  py_repr : string -> string;
  os_path_join : string -> string -> string
}.

Section PassRecord.
Context {BlendMode SupportedPlatforms Body : Type}.
Context `{BM : BlendModeTable BlendMode}.
Context `{SP : PlatformSet SupportedPlatforms}.
Context `{VO : VariantOps Body}.
Context `{PL : PyLib}.

Record Pass : Type := mkPass {
  name : string;
  supported_platforms : SupportedPlatforms;
  fallback_pass : string;
  default_blend_mode : BlendMode;
  default_variant : dict string;
  variants : list (Variant Body)
}.

(** [Pass.__init__] *)
Definition Pass_init : Pass :=
  {| name := "";
     supported_platforms := SupportedPlatforms_init;
     fallback_pass := "";
     default_blend_mode := Unspecified;
     default_variant := [];
     variants := [] |}.

(** *** Binary codec *)

(** The loop of [read] that fills [default_variant]:
    [for _ in range(count): key = read_string(file);
     self.default_variant[key] = read_string(file)]. *)
Fixpoint read_default_variant (count : nat) (file : list byte)
    (acc : dict string) : result (dict string * list byte) :=
  match count with
  | O => Ok (acc, file)
  | S count' =>
      '(key, file) ← read_string file;
      '(value, file) ← read_string file;
      read_default_variant count' file (Dict.set key value acc)
  end.

(** [[Variant().read(file) for _ in range(count)]] *)
Fixpoint read_variants (count : nat) (file : list byte)
    : result (list (Variant Body) * list byte) :=
  match count with
  | O => Ok ([], file)
  | S count' =>
      '(v, file) ← Variant_read file;
      '(vs, file) ← read_variants count' file;
      Ok (v :: vs, file)
  end.

(** [Pass.read]. [file] is what the cursor still has to deliver; the
    result pairs the updated object with the rest of the stream. The
    blend mode is assigned only under [if util.read_bool(file)]; without
    the flag the field keeps what [self] holds. After an exception the
    partly updated object is not represented. *)
Definition read (self : Pass) (file : list byte) : result (Pass * list byte) :=
  '(name', file) ← read_string file;
  '(bits, file) ← read_string file;
  platforms ← SupportedPlatforms_new bits;
  '(fallback, file) ← read_string file;
  '(has_mode, file) ← read_bool file;
  '(mode, file) ←
    (if has_mode : bool then
       '(code, file) ← read_ushort file;
       m ← from_lookup UnknownCodeError (BlendMode_getitem code);
       Ok (m, file)
     else Ok (default_blend_mode self, file));
  '(default_flag_count, file) ← read_ushort file;
  '(dv, file) ← read_default_variant (Z.to_nat default_flag_count) file [];
  '(variant_count, file) ← read_ushort file;
  '(vs, file) ← read_variants (Z.to_nat variant_count) file;
  Ok ({| name := name';
         supported_platforms := platforms;
         fallback_pass := fallback;
         default_blend_mode := mode;
         default_variant := dv;
         variants := vs |}, file).

(** The loop of [write] over [default_variant]. *)
Fixpoint write_default_variant (d : dict string) : result (list byte) :=
  match d with
  | [] => Ok []
  | (key, value) :: d' =>
      k ← write_string key;
      v ← write_string value;
      rest ← write_default_variant d';
      Ok (k ++ v ++ rest)
  end.

(** The loop of [write] over [variants]. *)
Fixpoint write_variants (vs : list (Variant Body)) : result (list byte) :=
  match vs with
  | [] => Ok []
  | v :: vs' =>
      b ← Variant_write v;
      rest ← write_variants vs';
      Ok (b ++ rest)
  end.

(** [mode != BlendMode.Unspecified] *)
Definition mode_specified (m : BlendMode) : bool :=
  if decide (m = Unspecified) then false else true.

(** [Pass.write]: the bytes appended to the stream. *)
Definition write (self : Pass) : result (list byte) :=
  b_name ← write_string (name self);
  b_bits ← write_string (get_bit_string (supported_platforms self));
  b_fallback ← write_string (fallback_pass self);
  let b_flag := write_bool (mode_specified (default_blend_mode self)) in
  b_mode ←
    (if mode_specified (default_blend_mode self)
     then write_ushort (BlendMode_value (default_blend_mode self))
     else Ok []);
  b_count ← write_ushort (Z.of_nat (length (default_variant self)));
  b_dv ← write_default_variant (default_variant self);
  b_vcount ← write_ushort (Z.of_nat (length (variants self)));
  b_vs ← write_variants (variants self);
  Ok (b_name ++ b_bits ++ b_fallback ++ b_flag ++ b_mode
      ++ b_count ++ b_dv ++ b_vcount ++ b_vs).

(** *** Descriptor (tree) codec *)

(** [Pass.serialize_properties]: the keys in the order they are set. *)
Definition serialize_properties (self : Pass) : dict json :=
  [ ("name", JStr (name self));
    ("supported_platforms",
      SupportedPlatforms_serialize (supported_platforms self));
    ("fallback_pass", JStr (fallback_pass self));
    ("default_blend_mode",
      JStr (if mode_specified (default_blend_mode self)
            then BlendMode_name (default_blend_mode self)
            else ""));
    ("default_variant",
      JObj (map (fun kv => (fst kv, JStr (snd kv))) (default_variant self)));
    ("variants",
      JArr (imap (fun i v => Variant_serialize_properties v i)
                 (variants self))) ]%string.

(** A descriptor value read into a [str] field. *)
Definition as_str (j : json) : result string :=
  match j with
  | JStr s => Ok s
  | _ => Err TypeError
  end.

(** A descriptor value read into a [dict[str, str]] field. *)
Definition as_str_dict (j : json) : result (dict string) :=
  match j with
  | JObj kv => traverse (fun e => v ← as_str (snd e); Ok (fst e, v)) kv
  | _ => Err TypeError
  end.

(** [Pass.load]. [object.get(key, default)] is [Dict.get] with the current
    field as the fallback; JSON [null] is Python's [None]. The descriptor
    schema gives [name] and [fallback_pass] strings, [default_variant] an
    object of strings and [variants] an array; a value of another JSON type
    cannot be stored in the typed record and ends the model with
    [TypeError]. After an exception the partly updated object is not
    represented. *)
Definition load (self : Pass) (object : dict json) (path : string)
    : result Pass :=
  name' ← match Dict.get "name" object with
          | Some j => as_str j
          | None => Ok (name self)
          end;
  platforms ← SupportedPlatforms_load (supported_platforms self)
                (default (JObj []) (Dict.get "supported_platforms" object));
  fallback ← match Dict.get "fallback_pass" object with
             | Some j => as_str j
             | None => Ok (fallback_pass self)
             end;
  mode ← match default JNull (Dict.get "default_blend_mode" object) with
         | JNull => Ok (default_blend_mode self)
         | m => if truthy m
                then from_lookup UnknownBlendModeError (BlendMode_call m)
                else Ok Unspecified
         end;
  dv ← match Dict.get "default_variant" object with
       | Some j => as_str_dict j
       | None => Ok (default_variant self)
       end;
  vs ← match Dict.get "variants" object with
       | Some (JArr l) =>
           traverse (fun variant =>
                       Variant_load variant (os_path_join path name')) l
       | Some _ => Err TypeError
       | None => Ok (variants self)
       end;
  Ok {| name := name';
        supported_platforms := platforms;
        fallback_pass := fallback;
        default_blend_mode := mode;
        default_variant := dv;
        variants := vs |}.

(** *** Semantic operations *)

(** [dict(sorted(d.items()))] *)
Definition sort_items (d : dict string) : dict string :=
  Dict.of_items (sorted item_ltb d).

(** [str(d)] of a [dict[str, str]]. *)
Definition str_dict (d : dict string) : string :=
  ("{" ++ String.concat ", "
            (map (fun kv => py_repr (fst kv) ++ ": " ++ py_repr (snd kv)) d)
       ++ "}")%string.

(** The comparison [list.sort(key=lambda x: str(x.flags))] performs. *)
Definition variant_ltb (a b : Variant Body) : bool :=
  String.ltb (str_dict (flags a)) (str_dict (flags b)).

(** [variant.flags = dict(sorted(variant.flags.items()))] *)
Definition sort_flags (variant : Variant Body) : Variant Body :=
  mkVariant (sort_items (flags variant)) (body variant).

(** [Pass.sort_variants] *)
Definition sort_variants (self : Pass) : Pass :=
  {| name := name self;
     supported_platforms := supported_platforms self;
     fallback_pass := fallback_pass self;
     default_blend_mode := default_blend_mode self;
     default_variant := sort_items (default_variant self);
     variants :=
       sorted variant_ltb (map sort_flags (variants self)) |}.

(** The string forms of the flags of two variants are in order. *)
Definition str_le (a b : Variant Body) : Prop :=
  String.leb (str_dict (flags a)) (str_dict (flags b)) = true.

(** [v.flags == other_variant.flags] *)
Definition flags_match (other_variant v : Variant Body) : Prop :=
  Dict.eqb String.eqb (flags v) (flags other_variant) = true.

#[global] Instance flags_match_dec o v : Decision (flags_match o v).
Proof. unfold flags_match. apply _. Defined.

Definition set_variants (self : Pass) (vs : list (Variant Body)) : Pass :=
  {| name := name self;
     supported_platforms := supported_platforms self;
     fallback_pass := fallback_pass self;
     default_blend_mode := default_blend_mode self;
     default_variant := default_variant self;
     variants := vs |}.

(** One iteration of the loop of [merge_variants], on the list
    [self.variants]: [next] over the generator yields the first variant
    with equal flags, which is merged in place; without one the other
    variant is appended. *)
Definition merge_into (vs : list (Variant Body))
    (other_variant : Variant Body) : list (Variant Body) :=
  match list_find (flags_match other_variant) vs with
  | None => vs ++ [other_variant]
  | Some (i, matching_variant) =>
      <[i := merge_variant matching_variant other_variant]> vs
  end.

Definition merge_one (self : Pass) (other_variant : Variant Body) : Pass :=
  set_variants self (merge_into (variants self) other_variant).

(** [Pass.merge_variants]: the state of [self] afterwards. [self] and
    [other] are distinct objects that share no variant when the call
    starts. *)
Definition merge_variants (self other : Pass) : Pass :=
  fold_left merge_one (variants other) self.

(** The body of the inner loop of [get_flag_definitions]. *)
Definition add_flag (definitions : dict (gset string))
    (kv : string * string) : dict (gset string) :=
  let definitions :=
    if Dict.mem (fst kv) definitions then definitions
    else Dict.set (fst kv) ∅ definitions in
  Dict.set (fst kv)
    (default ∅ (Dict.get (fst kv) definitions) ∪ {[snd kv]}) definitions.

(** [Pass.get_flag_definitions] *)
Definition get_flag_definitions (self : Pass) : dict (gset string) :=
  let definitions :=
    Dict.of_items
      (map (fun kv => (fst kv, ({[snd kv]} : gset string)))
           (default_variant self)) in
  fold_left (fun definitions variant =>
               fold_left add_flag (flags variant) definitions)
            (variants self) definitions.

End PassRecord.

Arguments Pass : clear implicits.

(** ** What the development asks of the collaborators *)
Section Laws.
Context {BlendMode SupportedPlatforms Body : Type}.
Context `{BM : BlendModeTable BlendMode}.
Context `{SP : PlatformSet SupportedPlatforms}.
Context `{VO : VariantOps Body}.

(** The protocol of a Python [Enum]: the subscript of the class looks a
    member up by its name, a [str]. The key [read] passes is the integer it
    took from the stream, which is the name of no member. *)
Definition BlendMode_subscript_by_name : Prop :=
  forall code : Z, BlendMode_getitem code = None.

(** The protocol of a Python [Enum]: the call of the class looks a member
    up by its value, here the integer code [write] packs. *)
Definition BlendMode_call_by_value : Prop :=
  forall (j : json) (m : BlendMode),
    BlendMode_call j = Some m -> j = JNum (BlendMode_value m).

(** Member names are identifiers, hence not the empty string. *)
Definition BlendMode_names_nonempty : Prop :=
  forall m : BlendMode, BlendMode_name m <> ""%string.

(** Rebuilding a platform set from its bit string gives the bit string
    back. *)
Definition SupportedPlatforms_codec_faithful : Prop :=
  forall p : SupportedPlatforms,
    exists p', SupportedPlatforms_new (get_bit_string p) = Ok p'
               /\ get_bit_string p' = get_bit_string p.

(** The round trip of the Variant codec: what a variant wrote is read
    back, consuming exactly those bytes, as a variant that writes the same
    bytes. *)
Definition Variant_codec_faithful : Prop :=
  forall (v : Variant Body) (b rest : list byte),
    Variant_write v = Ok b ->
    exists v', Variant_read (b ++ rest) = Ok (v', rest)
               /\ Variant_write v' = Ok b.

(** Loading an empty object into a platform set changes nothing. *)
Definition SupportedPlatforms_load_defaulting : Prop :=
  forall p : SupportedPlatforms, SupportedPlatforms_load p (JObj []) = Ok p.

(** Merging into a variant leaves its flags as they are. *)
Definition merge_keeps_flags : Prop :=
  forall v o : Variant Body, flags (merge_variant v o) = flags v.

End Laws.

(** The bytes of the key/value pairs of a dictionary, in its order. *)
Definition enc_items (d : dict string) : list byte :=
  flat_map (fun kv => enc_string (fst kv) ++ enc_string (snd kv)) d.

(** Both strings of a pair fit a 16-bit length prefix. *)
Definition short_item (kv : string * string) : Prop :=
  blen (fst kv) <= 65535 /\ blen (snd kv) <= 65535.

(** The binary record layout of section 6 of the specification, as a
    relation between a stream [file], the pass [p] decoded from it and the
    bytes [rest] that follow the record: the string [name], the platform bit
    string, the string [fallback_pass], one flag byte, the 16-bit blend mode
    code when the flag byte is not zero, a 16-bit count and as many
    key/value string pairs, a 16-bit count and as many variant records.
    [mode0] is the blend mode of a record without a code. *)
Section Layout.
Context {BlendMode SupportedPlatforms Body : Type}.
Context `{BM : BlendModeTable BlendMode}.
Context `{SP : PlatformSet SupportedPlatforms}.
Context `{VO : VariantOps Body}.

Definition wire_layout (mode0 : BlendMode)
    (p : Pass BlendMode SupportedPlatforms Body) (file rest : list byte)
    : Prop :=
  exists bits flag code kvs f_vs,
    file = enc_string (name p) ++ enc_string bits
           ++ enc_string (fallback_pass p)
           ++ [flag] ++ code
           ++ enc_ushort (Z.of_nat (length kvs)) ++ enc_items kvs
           ++ enc_ushort (Z.of_nat (length (variants p))) ++ f_vs
    /\ SupportedPlatforms_new bits = Ok (supported_platforms p)
    /\ (flag <> x00 ->
        exists c, code = enc_ushort c /\ 0 <= c <= 65535
                  /\ BlendMode_getitem c = Some (default_blend_mode p))
    /\ (flag = x00 ->
        code = [] /\ default_blend_mode p = mode0)
    /\ default_variant p = Dict.of_items kvs
    /\ read_variants (length (variants p)) f_vs = Ok (variants p, rest)
    /\ blen (name p) <= 65535 /\ blen bits <= 65535
    /\ blen (fallback_pass p) <= 65535
    /\ Z.of_nat (length kvs) <= 65535 /\ Forall short_item kvs
    /\ Z.of_nat (length (variants p)) <= 65535.


End Layout.

(** In a mapping from flag keys to sets of values, [k] takes the value
    [v]. *)
Definition takes_value (definitions : dict (gset string)) (k v : string)
    : Prop :=
  exists S : gset string, Dict.get k definitions = Some S /\ v ∈ S.


(** ** The queries and broadcasts of [Pass]

    [get_platforms], [get_stages], [add_platforms], [remove_platforms] and
    [label] hand each variant to a method of [Variant]. [ShaderPlatform] and
    [ShaderStage] are enumerations of other files of the package: here any
    two countable types. *)
Class VariantSets (Body Platform Stage : Type)
    `{Countable Platform} `{Countable Stage} := {
  (** [variant.get_platforms()] *)
  Variant_get_platforms : Variant Body -> gset Platform;
  (** [variant.get_stages()] *)
  Variant_get_stages : Variant Body -> gset Stage;
  (** [variant.add_platforms(platforms)]: the variant afterwards *)
  Variant_add_platforms : Variant Body -> gset Platform -> Variant Body;
  (** [variant.remove_platforms(platforms)]: the variant afterwards *)
  Variant_remove_platforms : Variant Body -> gset Platform -> Variant Body;
  (** [variant.label(material_name, pass_name, variant_index)]: the variant
      afterwards *)
  Variant_label : Variant Body -> string -> string -> nat -> Variant Body
}.

Section PassQueries.
Context {BlendMode SupportedPlatforms Body Platform Stage : Type}.
Context `{VS : VariantSets Body Platform Stage}.

#[local] Abbreviation Pass := (Pass BlendMode SupportedPlatforms Body).

(** [Pass.label] *)
Definition label (self : Pass) (material_name : string) : Pass :=
  set_variants self
    (imap (fun variant_index variant =>
             Variant_label variant material_name (name self) variant_index)
          (variants self)).

(** [Pass.get_platforms] *)
Definition get_platforms (self : Pass) : gset Platform :=
  fold_left (fun platforms variant =>
               platforms ∪ Variant_get_platforms variant)
            (variants self) ∅.

(** [Pass.get_stages] *)
Definition get_stages (self : Pass) : gset Stage :=
  fold_left (fun stages variant => stages ∪ Variant_get_stages variant)
            (variants self) ∅.

(** [Pass.add_platforms] *)
Definition add_platforms (self : Pass) (platforms : gset Platform) : Pass :=
  set_variants self
    (map (fun variant => Variant_add_platforms variant platforms)
         (variants self)).

(** [Pass.remove_platforms] *)
Definition remove_platforms (self : Pass) (platforms : gset Platform)
    : Pass :=
  set_variants self
    (map (fun variant => Variant_remove_platforms variant platforms)
         (variants self)).

(** Adding platforms to a variant adds them to its platform set, removing
    them takes them out. *)
Definition Variant_platforms_law : Prop :=
  forall (v : Variant Body) (ps : gset Platform),
    Variant_get_platforms (Variant_add_platforms v ps)
    = Variant_get_platforms v ∪ ps
    /\ Variant_get_platforms (Variant_remove_platforms v ps)
       = Variant_get_platforms v ∖ ps.

End PassQueries.

(** No variant of the list has flags equal to those of an earlier one. *)
Definition flags_distinct {Body} (vs : list (Variant Body)) : Prop :=
  forall i j v w,
    (i < j)%nat -> vs !! i = Some v -> vs !! j = Some w -> ~ flags_match w v.

(** The keys of a list of keys, each once, in the order of their first
    occurrence. *)
Fixpoint first_keys (ks : list string) : list string :=
  match ks with
  | [] => []
  | k :: ks' => k :: filter (fun k' => k' <> k) (first_keys ks')
  end.

(** The value the last pair with key [k] gives it, as [dict(items)] keeps
    it. *)
Definition last_value {V} (k : string) (items : list (string * V))
    : option V :=
  Dict.get k (rev items).

(** ** A small instance of the collaborators

    Three blend modes, platform sets kept as their bit string, and variants
    whose body is one string. The examples below run the definitions on it. *)
Module Sample.

Inductive Mode : Set := Opaque | Blend | Unset.

#[global] Instance Mode_eq_dec : EqDecision Mode.
Proof. solve_decision. Defined.

#[global] Instance Mode_table : BlendModeTable Mode := {|
  Unspecified := Unset;
  BlendMode_value := fun m =>
    match m with Opaque => 0 | Blend => 1 | Unset => 2 end;
  BlendMode_name := fun m =>
    match m with
    | Opaque => "Opaque" | Blend => "Blend" | Unset => "Unspecified"
    end%string;
  BlendMode_getitem := fun c =>
    if c =? 0 then Some Opaque
    else if c =? 1 then Some Blend
    else if c =? 2 then Some Unset
    else None;
  BlendMode_call := fun j =>
    match j with
    | JStr s =>
        if String.eqb s "Opaque" then Some Opaque
        else if String.eqb s "Blend" then Some Blend
        else if String.eqb s "Unspecified" then Some Unset
        else None
    | _ => None
    end
|}.

#[global] Instance Platforms : PlatformSet string := {|
  SupportedPlatforms_init := ""%string;
  SupportedPlatforms_new := fun bits => Ok bits;
  get_bit_string := fun p => p;
  SupportedPlatforms_serialize := JStr;
  SupportedPlatforms_load := fun p j =>
    match j with
    | JObj [] => Ok p
    | JStr bits => Ok bits
    | _ => Err TypeError
    end
|}.

#[global] Instance Variants : VariantOps string := {|
  Variant_read := fun file =>
    '(s, file) ← read_string file; Ok (mkVariant [] s, file);
  Variant_write := fun v => write_string (body v);
  Variant_serialize_properties := fun v _ => JStr (body v);
  Variant_load := fun j path =>
    fl ← as_str_dict j; Ok (mkVariant fl path);
  merge_variant := fun v o => mkVariant (flags v) (body v ++ body o)%string
|}.

#[global] Instance Lib : PyLib := {|
  py_repr := fun s => ("'" ++ s ++ "'")%string;
  os_path_join := fun a b => (a ++ "/" ++ b)%string
|}.

Definition SPass : Type := Pass Mode string string.

(** A populated pass and the bytes [write] emits for it. *)
Definition terrain : SPass :=
  {| name := "terrain";
     supported_platforms := "0110";
     fallback_pass := "Fallback";
     default_blend_mode := Blend;
     default_variant := [("a", "0")];
     variants := [mkVariant [("a", "1"); ("b", "2")] "vs"] |}%string.

Definition terrain_bytes : list byte :=
  Eval vm_compute in
    match write terrain with Ok b => b | Err _ => [] end.

(** What [Pass().read] makes of [terrain_bytes]: the sample variant codec
    stores the body only. *)
Definition terrain_read : SPass :=
  {| name := "terrain";
     supported_platforms := "0110";
     fallback_pass := "Fallback";
     default_blend_mode := Blend;
     default_variant := [("a", "0")];
     variants := [mkVariant [] "vs"] |}%string.

(** The bytes of a newly constructed pass: three empty strings, the flag
    byte 0, and two zero counts. *)
Definition empty_bytes : list byte :=
  [x00; x00; x00; x00; x00; x00; x00; x00; x00; x00; x00].

(** [terrain] after reading [empty_bytes] into it. *)
Definition terrain_reread : SPass :=
  {| name := "";
     supported_platforms := "";
     fallback_pass := "";
     default_blend_mode := Blend;
     default_variant := [];
     variants := [] |}%string.

(** A descriptor that renames the pass and lists one variant. *)
Definition water_tree : dict json :=
  [("name", JStr "water");
   ("variants", JArr [JObj [("x", JStr "1")]])]%string.

(** Two passes compiled separately, to be merged. *)
Definition pass_a : SPass :=
  {| name := "a";
     supported_platforms := "01";
     fallback_pass := "";
     default_blend_mode := Unset;
     default_variant := [("x", "0")];
     variants := [mkVariant [("x", "1")] "glsl"] |}%string.

Definition pass_b : SPass :=
  {| name := "b";
     supported_platforms := "10";
     fallback_pass := "Fallback";
     default_blend_mode := Opaque;
     default_variant := [];
     variants := [mkVariant [("x", "1")] "+essl";
                  mkVariant [("x", "2")] "essl"] |}%string.

(** The bytes [write] emits for [pass_a], which has no default blend mode,
    and what [Pass().read] makes of them. *)
Definition pass_a_bytes : list byte :=
  Eval vm_compute in
    match write pass_a with Ok b => b | Err _ => [] end.


(** A pass whose dictionaries and variants are out of order. *)
Definition shuffled : SPass :=
  {| name := "s";
     supported_platforms := "1";
     fallback_pass := "";
     default_blend_mode := Unset;
     default_variant := [("b", "1"); ("a", "0")];
     variants := [mkVariant [("y", "1"); ("x", "2")] "second";
                  mkVariant [("x", "1")] "first"] |}%string.

End Sample.

(** ** An instance whose blend modes follow the protocol of [Enum]

    The subscript is a lookup by name and finds no integer; the call is a
    lookup by value and finds no name. Platform sets and variants are those
    of [Sample]. *)
Module EnumSample.

Inductive Mode : Set := Replace | Additive | NoMode.

#[global] Instance Mode_eq_dec : EqDecision Mode.
Proof. solve_decision. Defined.

#[global] Instance Mode_table : BlendModeTable Mode := {|
  Unspecified := NoMode;
  BlendMode_value := fun m =>
    match m with Replace => 0 | Additive => 1 | NoMode => 2 end;
  BlendMode_name := fun m =>
    match m with
    | Replace => "Replace" | Additive => "Additive" | NoMode => "Unspecified"
    end%string;
  BlendMode_getitem := fun _ => None;
  BlendMode_call := fun j =>
    match j with
    | JNum n =>
        if n =? 0 then Some Replace
        else if n =? 1 then Some Additive
        else if n =? 2 then Some NoMode
        else None
    | _ => None
    end
|}.

Definition EPass : Type := Pass Mode string string.

(** A pass with a default blend mode and the bytes [write] emits for it. *)
Definition glow : EPass :=
  {| name := "glow";
     supported_platforms := "0110";
     fallback_pass := "";
     default_blend_mode := Additive;
     default_variant := [("a", "0")];
     variants := [] |}%string.

Definition glow_bytes : list byte :=
  Eval vm_compute in
    match write glow with Ok b => b | Err _ => [] end.

(** The same pass without a default blend mode. *)
Definition plain : EPass :=
  {| name := "glow";
     supported_platforms := "0110";
     fallback_pass := "";
     default_blend_mode := NoMode;
     default_variant := [("a", "0")];
     variants := [] |}%string.

End EnumSample.

(** ** A second instance, for the queries

    The body of a variant is its set of platform names. *)
Module SampleSets.
Import Sample.

#[global] Instance Sets : VariantSets (gset string) string string := {|
  Variant_get_platforms := fun v => body v;
  Variant_get_stages := fun v => {["vertex"; "fragment"]}%string;
  Variant_add_platforms := fun v ps => mkVariant (flags v) (body v ∪ ps);
  Variant_remove_platforms := fun v ps => mkVariant (flags v) (body v ∖ ps);
  Variant_label := fun v _ _ _ => v
|}.

Definition PPass : Type := Pass Mode string (gset string).

(** A pass with one variant per graphics interface. *)
Definition two_platforms : PPass :=
  {| name := "sky";
     supported_platforms := "11";
     fallback_pass := "";
     default_blend_mode := Unset;
     default_variant := [];
     variants := [mkVariant [("x", "1")] {["d3d"]};
                  mkVariant [("x", "2")] {["gl"]}] |}%string.

(** A pass without variants. *)
Definition no_variants : PPass :=
  {| name := "sky";
     supported_platforms := "11";
     fallback_pass := "";
     default_blend_mode := Unset;
     default_variant := [];
     variants := [] |}%string.

End SampleSets.

(** ** The result monad *)

Lemma bind_Ok {A B} (m : result A) (f : A -> result B) (b : B) :
  (m ≫= f) = Ok b <-> exists a, m = Ok a /\ f a = Ok b.
Proof.
  destruct m as [a|e]; simpl; split.
  - intros H. exists a. split; [reflexivity | exact H].
  - intros (a' & Ha & Hf). injection Ha as ->. exact Hf.
  - discriminate.
  - intros (a' & Ha & _). discriminate.
Qed.

(** Runs the binds whose first computation is a value. *)
Ltac mstep := cbn [mbind result_mbind result_bind].

(** Splits a hypothesis [x ← m; k = Ok r] into [m = Ok x] and [k = Ok r]. *)
Ltac inv_bind H :=
  let x := fresh "x" in
  let Hx := fresh "Hx" in
  apply bind_Ok in H; destruct H as (x & Hx & H).

Tactic Notation "bind_inv" hyp(H) "as" simple_intropattern(x) ident(Hx) :=
  apply bind_Ok in H; destruct H as (x & Hx & H).

(** ** Primitive codec lemmas *)
Module util_facts.

Lemma Z_of_byte_range b : 0 <= Z_of_byte b <= 255.
Proof.
  unfold Z_of_byte. pose proof (Byte.to_N_bounded b). lia.
Qed.

Lemma Z_of_byte_of_Z z : 0 <= z <= 255 -> Z_of_byte (byte_of_Z z) = z.
Proof.
  intros Hz. unfold Z_of_byte, byte_of_Z.
  destruct (Byte.of_N (Z.to_N z)) as [b|] eqn:E.
  - apply Byte.to_of_N in E. rewrite E. lia.
  - apply Byte.of_N_None_iff in E. lia.
Qed.

Lemma byte_of_Z_of_byte b : byte_of_Z (Z_of_byte b) = b.
Proof.
  unfold Z_of_byte, byte_of_Z.
  rewrite N2Z.id, Byte.of_to_N. reflexivity.
Qed.

Lemma read_enc_ushort n rest :
  0 <= n <= 65535 -> read_ushort (enc_ushort n ++ rest) = Ok (n, rest).
Proof.
  intros Hn. unfold enc_ushort, read_ushort. simpl.
  rewrite !Z_of_byte_of_Z.
  - f_equal. f_equal. pose proof (Z.div_mod n 256). lia.
  - split; [apply Z.div_pos; lia | ].
    assert (n / 256 < 256) by (apply Z.div_lt_upper_bound; lia). lia.
  - pose proof (Z.mod_pos_bound n 256). lia.
Qed.

Lemma read_ushort_inv file n rest :
  read_ushort file = Ok (n, rest) ->
  file = enc_ushort n ++ rest /\ 0 <= n <= 65535.
Proof.
  unfold read_ushort. destruct file as [|b0 [|b1 file]]; try discriminate.
  intros [= <- <-].
  pose proof (Z_of_byte_range b0). pose proof (Z_of_byte_range b1).
  split; [|lia]. unfold enc_ushort. simpl.
  replace ((Z_of_byte b0 + 256 * Z_of_byte b1) mod 256) with (Z_of_byte b0).
  2:{ rewrite (Z.mul_comm 256), Z.mod_add by lia.
      symmetry. apply Z.mod_small. lia. }
  replace ((Z_of_byte b0 + 256 * Z_of_byte b1) / 256) with (Z_of_byte b1).
  2:{ rewrite (Z.mul_comm 256), Z.div_add by lia.
      rewrite Z.div_small by lia. lia. }
  rewrite !byte_of_Z_of_byte. reflexivity.
Qed.

Lemma write_ushort_Ok n b :
  write_ushort n = Ok b <-> b = enc_ushort n /\ 0 <= n <= 65535.
Proof.
  unfold write_ushort.
  destruct ((0 <=? n) && (n <=? 65535)) eqn:E.
  - apply andb_true_iff in E as [H1 H2].
    apply Z.leb_le in H1. apply Z.leb_le in H2.
    split; [intros [= <-]; auto | intros [-> _]; reflexivity].
  - split; [discriminate | intros [_ H]].
    apply andb_false_iff in E as [E|E]; apply Z.leb_gt in E; lia.
Qed.

Lemma write_string_Ok s b :
  write_string s = Ok b <-> b = enc_string s /\ blen s <= 65535.
Proof.
  unfold write_string, enc_string, blen. split.
  - intros H. inv_bind H. injection H as <-.
    apply write_ushort_Ok in Hx as [-> ?]. split; [reflexivity | lia].
  - intros [-> Hl]. apply bind_Ok. eexists. split; [|reflexivity].
    apply write_ushort_Ok. split; [reflexivity | lia].
Qed.

Lemma read_enc_string s rest :
  blen s <= 65535 -> read_string (enc_string s ++ rest) = Ok (s, rest).
Proof.
  intros Hl. unfold read_string, enc_string.
  assert (0 <= blen s) by (unfold blen; lia).
  rewrite <- app_assoc, read_enc_ushort by lia. simpl. unfold blen in *.
  rewrite length_app.
  destruct (Z.ltb_spec (Z.of_nat (length (list_byte_of_string s) + length rest))
              (Z.of_nat (length (list_byte_of_string s)))); [lia|].
  rewrite Nat2Z.id, take_app_length, drop_app_length.
  rewrite string_of_list_byte_of_string. reflexivity.
Qed.

Lemma read_string_inv file s rest :
  read_string file = Ok (s, rest) ->
  file = enc_string s ++ rest /\ blen s <= 65535.
Proof.
  unfold read_string, blen. intros H. inv_bind H. destruct x as [n file'].
  apply read_ushort_inv in Hx as [-> Hn].
  destruct (Z.ltb_spec (Z.of_nat (length file')) n) as [|Hlen]; [discriminate|].
  injection H as <- <-.
  unfold enc_string, blen. rewrite list_byte_of_string_of_list_byte.
  rewrite length_take, Nat.min_l by lia.
  rewrite Z2Nat.id by lia. split; [|lia].
  rewrite <- app_assoc, take_drop. reflexivity.
Qed.

Lemma read_write_bool b rest : read_bool (write_bool b ++ rest) = Ok (b, rest).
Proof. destruct b; reflexivity. Qed.

End util_facts.
Import util_facts.

(** ** Dictionaries *)
Module Dict_facts.
Section with_value.
Context {V : Type}.
Implicit Types (d : dict V) (k : string) (v : V).

Lemma get_None_keys k d : Dict.get k d = None <-> k ∉ Dict.keys d.
Proof.
  induction d as [|[k' v'] d IH]; simpl.
  - split; [intros _; apply not_elem_of_nil | reflexivity].
  - rewrite not_elem_of_cons.
    destruct (String.eqb_spec k k') as [->|Hne]; split.
    + discriminate.
    + intros [H _]. congruence.
    + intros H. split; [exact Hne | apply IH, H].
    + intros [_ H]. apply IH, H.
Qed.

Lemma get_Some_In k v d : Dict.get k d = Some v -> (k, v) ∈ d.
Proof.
  induction d as [|[k' v'] d IH]; simpl; [discriminate|].
  destruct (String.eqb_spec k k') as [->|Hne].
  - intros [= ->]. left.
  - intros H. right. auto.
Qed.

Lemma In_get_wf k v d : Dict.wf d -> (k, v) ∈ d -> Dict.get k d = Some v.
Proof.
  unfold Dict.wf.
  induction d as [|[k' v'] d IH]; simpl; intros Hwf Hin.
  - apply elem_of_nil in Hin as [].
  - apply NoDup_cons in Hwf as [Hk Hwf].
    apply elem_of_cons in Hin as [[= -> ->]|Hin].
    + rewrite String.eqb_refl. reflexivity.
    + destruct (String.eqb_spec k k') as [->|Hne]; [|auto].
      exfalso. apply Hk. apply list_elem_of_fmap.
      exists (k', v). split; [reflexivity | exact Hin].
Qed.

Lemma set_fresh k v d : k ∉ Dict.keys d -> Dict.set k v d = d ++ [(k, v)].
Proof.
  induction d as [|[k' v'] d IH]; simpl; [reflexivity|].
  rewrite not_elem_of_cons. intros [Hne Hk].
  destruct (String.eqb_spec k k') as [->|_]; [congruence|].
  rewrite IH by exact Hk. reflexivity.
Qed.

Lemma keys_set k v d :
  Dict.keys (Dict.set k v d)
  = if Dict.mem k d then Dict.keys d else Dict.keys d ++ [k].
Proof.
  unfold Dict.mem.
  induction d as [|[k' v'] d IH]; simpl; [reflexivity|].
  destruct (String.eqb_spec k k') as [->|Hne]; simpl; [reflexivity|].
  rewrite IH. destruct (Dict.get k d); reflexivity.
Qed.

Lemma set_wf k v d : Dict.wf d -> Dict.wf (Dict.set k v d).
Proof.
  unfold Dict.wf. intros Hwf. rewrite keys_set. unfold Dict.mem.
  destruct (Dict.get k d) eqn:E; [exact Hwf|].
  apply get_None_keys in E.
  apply NoDup_app. split; [exact Hwf|]. split.
  - intros x Hx Hx'. apply list_elem_of_singleton in Hx' as ->. auto.
  - apply NoDup_singleton.
Qed.

Lemma fold_set_wf (l : list (string * V)) d :
  Dict.wf d ->
  Dict.wf (fold_left (fun d kv => Dict.set (fst kv) (snd kv) d) l d).
Proof.
  revert d. induction l as [|[k v] l IH]; simpl; intros d Hwf; [exact Hwf|].
  apply IH, set_wf, Hwf.
Qed.

Lemma of_items_wf (l : list (string * V)) : Dict.wf (Dict.of_items l).
Proof. apply fold_set_wf. apply NoDup_nil_2. Qed.

Lemma fold_set_fresh (l : list (string * V)) d :
  Dict.wf (d ++ l) ->
  fold_left (fun d kv => Dict.set (fst kv) (snd kv) d) l d = d ++ l.
Proof.
  revert d. induction l as [|[k v] l IH]; simpl; intros d Hwf.
  - rewrite app_nil_r. reflexivity.
  - assert (Hk : k ∉ Dict.keys d).
    { unfold Dict.wf, Dict.keys in Hwf. rewrite fmap_app in Hwf.
      apply NoDup_app in Hwf as (_ & Hdis & _).
      intros Hin. apply (Hdis k Hin). simpl. left. }
    rewrite set_fresh by exact Hk.
    rewrite IH; rewrite <- app_assoc; [reflexivity | exact Hwf].
Qed.

Lemma get_set k k' v d :
  Dict.get k (Dict.set k' v d)
  = if String.eqb k k' then Some v else Dict.get k d.
Proof.
  induction d as [|[k0 v0] d IH]; cbn [Dict.set Dict.get].
  - reflexivity.
  - destruct (String.eqb_spec k' k0) as [->|Hne]; cbn [Dict.get].
    + destruct (String.eqb k k0); reflexivity.
    + rewrite IH. destruct (String.eqb_spec k k0) as [->|_]; [|reflexivity].
      destruct (String.eqb_spec k0 k') as [E|_]; [congruence | reflexivity].
Qed.

(** [dict(items)] of distinct keys is the list of items itself. *)
Lemma of_items_id (l : list (string * V)) :
  Dict.wf l -> Dict.of_items l = l.
Proof. intros Hwf. unfold Dict.of_items. rewrite fold_set_fresh; auto. Qed.

End with_value.

Lemma keys_get_Some {V} k (d : dict V) :
  k ∈ Dict.keys d <-> is_Some (Dict.get k d).
Proof.
  destruct (Dict.get k d) eqn:E.
  - split; [eauto|]. intros _.
    destruct (decide (k ∈ Dict.keys d)) as [|Hn]; [assumption|].
    apply get_None_keys in Hn. congruence.
  - apply get_None_keys in E. split; [contradiction|].
    intros [? ?]. discriminate.
Qed.

(** [==] on two dictionaries holds exactly when they bind the same keys
    to the same values. *)
Lemma flags_eqb_same_bindings (d1 d2 : dict string) :
  Dict.wf d1 -> Dict.wf d2 ->
  Dict.eqb String.eqb d1 d2 = true
  <-> forall k, Dict.get k d1 = Dict.get k d2.
Proof.
  intros Hwf1 Hwf2. unfold Dict.eqb. rewrite andb_true_iff, forallb_forall.
  rewrite Nat.eqb_eq. split.
  - intros [Hlen Hall].
    assert (Hsub : forall k v, (k, v) ∈ d1 -> Dict.get k d2 = Some v).
    { intros k v Hin. apply list_elem_of_In in Hin.
      specialize (Hall _ Hin). cbn in Hall.
      destruct (Dict.get k d2) as [v'|]; [|discriminate].
      apply String.eqb_eq in Hall. congruence. }
    assert (Hperm : Dict.keys d1 ≡ₚ Dict.keys d2).
    { apply submseteq_length_Permutation.
      - apply NoDup_submseteq; [exact Hwf1|].
        intros k Hk. apply keys_get_Some.
        apply list_elem_of_fmap in Hk as ([k' v] & -> & Hin).
        cbn [fst]. rewrite (Hsub _ _ Hin). eauto.
      - unfold Dict.keys. rewrite !length_fmap. lia. }
    intros k. destruct (Dict.get k d1) as [v|] eqn:E.
    + symmetry. apply Hsub, get_Some_In, E.
    + symmetry. apply get_None_keys. rewrite <- Hperm.
      apply get_None_keys, E.
  - intros Heq. split.
    + assert (Hperm : Dict.keys d1 ≡ₚ Dict.keys d2).
      { apply NoDup_Permutation; [exact Hwf1 | exact Hwf2 |].
        intros k. rewrite !keys_get_Some, Heq. reflexivity. }
      apply Permutation_length in Hperm.
      unfold Dict.keys in Hperm. rewrite !length_fmap in Hperm. exact Hperm.
    + intros [k v] Hin. apply list_elem_of_In in Hin. cbn.
      rewrite <- Heq, (In_get_wf _ _ _ Hwf1 Hin).
      apply String.eqb_refl.
Qed.

End Dict_facts.
Import Dict_facts.

(** ** The binary codec *)
Section Codec.
Context {BlendMode SupportedPlatforms Body : Type}.
Context `{BM : BlendModeTable BlendMode}.
Context `{SP : PlatformSet SupportedPlatforms}.
Context `{VO : VariantOps Body}.

#[local] Arguments enc_ushort : simpl never.
#[local] Arguments enc_string : simpl never.
#[local] Arguments enc_items : simpl never.

#[local] Abbreviation Pass := (Pass BlendMode SupportedPlatforms Body).
#[local] Abbreviation fold_set :=
  (fold_left (fun d kv => Dict.set (fst kv) (snd kv) d)).

Lemma enc_items_cons k v (d : dict string) :
  enc_items ((k, v) :: d) = enc_string k ++ enc_string v ++ enc_items d.
Proof. unfold enc_items. simpl. rewrite <- app_assoc. reflexivity. Qed.

Lemma write_default_variant_Ok (d : dict string) b :
  write_default_variant d = Ok b <-> b = enc_items d /\ Forall short_item d.
Proof.
  revert b. induction d as [|[k v] d IH]; intros b.
  - simpl. split; [intros [= <-]; auto | intros [-> _]; reflexivity].
  - rewrite enc_items_cons. cbn [write_default_variant]. split.
    + intros H. inv_bind H. inv_bind H. inv_bind H. injection H as <-.
      apply write_string_Ok in Hx as [-> ?].
      apply write_string_Ok in Hx0 as [-> ?].
      apply IH in Hx1 as [-> ?].
      split; [reflexivity|].
      constructor; [split; assumption | assumption].
    + intros [-> Hs]. apply Forall_cons in Hs as [[Hk Hv] Hs].
      apply bind_Ok. eexists. split; [apply write_string_Ok; eauto|].
      apply bind_Ok. eexists. split; [apply write_string_Ok; eauto|].
      apply bind_Ok. eexists. split; [apply IH; eauto|].
      reflexivity.
Qed.

Lemma read_default_variant_enc (d acc : dict string) rest :
  Forall short_item d ->
  read_default_variant (length d) (enc_items d ++ rest) acc
  = Ok (fold_set d acc, rest).
Proof.
  revert acc. induction d as [|[k v] d IH]; intros acc Hs; [reflexivity|].
  apply Forall_cons in Hs as [[Hk Hv] Hs]. simpl in Hk, Hv.
  rewrite enc_items_cons. cbn [length read_default_variant].
  rewrite <- !app_assoc, read_enc_string by exact Hk. mstep.
  rewrite read_enc_string by exact Hv. mstep.
  apply IH, Hs.
Qed.

Lemma read_default_variant_inv n file acc dv rest :
  read_default_variant n file acc = Ok (dv, rest) ->
  exists kvs, length kvs = n /\ file = enc_items kvs ++ rest
              /\ dv = fold_set kvs acc /\ Forall short_item kvs.
Proof.
  revert file acc. induction n as [|n IH]; simpl; intros file acc H.
  - injection H as <- <-. exists []. auto.
  - inv_bind H. destruct x as [k file1].
    inv_bind H. destruct x as [v file2].
    apply read_string_inv in Hx as [-> Hk].
    apply read_string_inv in Hx0 as [-> Hv].
    apply IH in H as (kvs & <- & -> & -> & Hs).
    exists ((k, v) :: kvs). rewrite enc_items_cons, <- !app_assoc.
    repeat split; auto. constructor; [split; assumption | assumption].
Qed.

Lemma read_default_variant_wf n file acc dv rest :
  Dict.wf acc ->
  read_default_variant n file acc = Ok (dv, rest) -> Dict.wf dv.
Proof.
  intros Hwf H. apply read_default_variant_inv in H as (kvs & _ & _ & -> & _).
  apply fold_set_wf, Hwf.
Qed.

Lemma write_variants_length (vs : list (Variant Body)) b rest :
  Variant_codec_faithful ->
  write_variants vs = Ok b ->
  exists vs', read_variants (length vs) (b ++ rest) = Ok (vs', rest)
              /\ write_variants vs' = Ok b /\ length vs' = length vs.
Proof.
  intros Hcodec. revert b. induction vs as [|v vs IH]; simpl; intros b H.
  - injection H as <-. exists []. auto.
  - inv_bind H. inv_bind H. injection H as <-.
    destruct (Hcodec v x (x0 ++ rest) Hx) as (v' & Hr & Hw).
    destruct (IH x0 Hx0) as (vs' & Hrs & Hws & Hlen).
    exists (v' :: vs'). rewrite <- app_assoc, Hr. simpl.
    rewrite Hrs. simpl. rewrite Hw. simpl. rewrite Hws. simpl.
    rewrite Hlen. auto.
Qed.

(** The bytes [write] emits, field by field. *)
Lemma write_layout (self : Pass) b :
  write self = Ok b ->
  exists b_vs,
    write_variants (variants self) = Ok b_vs
    /\ b = enc_string (name self)
           ++ enc_string (get_bit_string (supported_platforms self))
           ++ enc_string (fallback_pass self)
           ++ write_bool (mode_specified (default_blend_mode self))
           ++ (if mode_specified (default_blend_mode self)
               then enc_ushort (BlendMode_value (default_blend_mode self))
               else [])
           ++ enc_ushort (Z.of_nat (length (default_variant self)))
           ++ enc_items (default_variant self)
           ++ enc_ushort (Z.of_nat (length (variants self)))
           ++ b_vs
    /\ blen (name self) <= 65535
    /\ blen (get_bit_string (supported_platforms self)) <= 65535
    /\ blen (fallback_pass self) <= 65535
    /\ (mode_specified (default_blend_mode self) = true ->
        0 <= BlendMode_value (default_blend_mode self) <= 65535)
    /\ Z.of_nat (length (default_variant self)) <= 65535
    /\ Forall short_item (default_variant self)
    /\ Z.of_nat (length (variants self)) <= 65535.
Proof.
  unfold write. intros H.
  bind_inv H as b1 H1. apply write_string_Ok in H1 as [-> ?].
  bind_inv H as b2 H2. apply write_string_Ok in H2 as [-> ?].
  bind_inv H as b3 H3. apply write_string_Ok in H3 as [-> ?].
  bind_inv H as b_mode Hmode.
  bind_inv H as b5 H5. apply write_ushort_Ok in H5 as [-> ?].
  bind_inv H as b6 H6. apply write_default_variant_Ok in H6 as [-> ?].
  bind_inv H as b7 H7. apply write_ushort_Ok in H7 as [-> ?].
  bind_inv H as b_vs Hvs. injection H as <-.
  exists b_vs. split; [exact Hvs|].
  destruct (mode_specified (default_blend_mode self)).
  - apply write_ushort_Ok in Hmode as [-> ?].
    repeat split; auto; lia.
  - injection Hmode as <-. repeat split; auto; try lia; discriminate.
Qed.

(** Reading back what [write] emitted for a pass without a default blend
    mode, into a receiver whose blend mode is the sentinel, gives a record
    that writes the same bytes. No blend mode is looked up on the way. *)
Lemma read_write_sentinel (self0 p : Pass) b rest :
  SupportedPlatforms_codec_faithful ->
  Variant_codec_faithful ->
  default_blend_mode self0 = Unspecified ->
  default_blend_mode p = Unspecified ->
  Dict.wf (default_variant p) ->
  write p = Ok b ->
  exists p', read self0 (b ++ rest) = Ok (p', rest) /\ write p' = Ok b
             /\ default_blend_mode p' = Unspecified.
Proof.
  intros Hsp Hvar Hself Hmode Hwf Hw.
  pose proof Hw as Hw0.
  apply write_layout in Hw
    as (b_vs & Hvs & -> & Hn & Hb & Hf & Hm & Hk & Hs & Hc).
  destruct (Hsp (supported_platforms p)) as (sp' & Hnew & Hbits).
  destruct (write_variants_length _ _ rest Hvar Hvs) as (vs' & Hrs & Hws & Hlen).
  exists {| name := name p; supported_platforms := sp';
            fallback_pass := fallback_pass p;
            default_blend_mode := Unspecified;
            default_variant := default_variant p;
            variants := vs' |}.
  split; [|split; [|reflexivity]].
  - unfold read. rewrite <- !app_assoc.
    rewrite read_enc_string by exact Hn. mstep.
    rewrite read_enc_string by exact Hb. mstep. rewrite Hnew. mstep.
    rewrite read_enc_string by exact Hf. mstep.
    rewrite read_write_bool. mstep.
    unfold mode_specified in *.
    destruct (decide (default_blend_mode p = Unspecified)) as [E|E];
      [|contradiction].
    cbn [app]. mstep.
    rewrite read_enc_ushort by lia. mstep.
    rewrite Nat2Z.id, read_default_variant_enc by exact Hs. mstep.
    rewrite read_enc_ushort by lia. mstep.
    rewrite Nat2Z.id, Hrs. mstep.
    rewrite fold_set_fresh by exact Hwf.
    rewrite Hself. reflexivity.
  - rewrite <- Hw0. unfold write. cbn [name supported_platforms
      fallback_pass default_blend_mode default_variant variants].
    rewrite Hbits, Hws, Hvs, Hlen, Hmode. reflexivity.
Qed.

(** Reading back what [write] emitted for a pass with a default blend mode:
    the three strings and the flag are read, the code is read, and the
    subscript of the enumeration is asked for the integer, which it does
    not find. *)
Lemma read_write_specified (self0 p : Pass) b rest :
  BlendMode_subscript_by_name ->
  SupportedPlatforms_codec_faithful ->
  default_blend_mode p <> Unspecified ->
  write p = Ok b ->
  read self0 (b ++ rest) = Err UnknownCodeError.
Proof.
  intros Hname Hsp Hmode Hw.
  apply write_layout in Hw
    as (b_vs & Hvs & -> & Hn & Hb & Hf & Hm & Hk & Hs & Hc).
  destruct (Hsp (supported_platforms p)) as (sp' & Hnew & Hbits).
  unfold read. rewrite <- !app_assoc.
  rewrite read_enc_string by exact Hn. mstep.
  rewrite read_enc_string by exact Hb. mstep. rewrite Hnew. mstep.
  rewrite read_enc_string by exact Hf. mstep.
  rewrite read_write_bool. mstep.
  unfold mode_specified in *.
  destruct (decide (default_blend_mode p = Unspecified)) as [E|E];
    [contradiction|].
  cbn [app]. mstep.
  rewrite read_enc_ushort by (apply Hm; reflexivity). mstep.
  rewrite Hname. reflexivity.
Qed.

(** What [read] returns always holds a well-formed [default_variant]. *)
Lemma read_wf (self p : Pass) file rest :
  read self file = Ok (p, rest) -> Dict.wf (default_variant p).
Proof.
  unfold read. intros H.
  inv_bind H. destruct x as [? ?].
  inv_bind H. destruct x as [? ?].
  inv_bind H.
  inv_bind H. destruct x0 as [? ?].
  inv_bind H. destruct x0 as [? ?].
  inv_bind H. destruct x0 as [? ?].
  inv_bind H. destruct x0 as [? ?].
  inv_bind H. destruct x0 as [dv ?].
  inv_bind H. destruct x0 as [? ?].
  inv_bind H. destruct x0 as [? ?].
  injection H as <- <-. simpl.
  eapply read_default_variant_wf; [|eassumption]. apply NoDup_nil_2.
Qed.

Lemma read_variants_length n file (vs : list (Variant Body)) rest :
  read_variants n file = Ok (vs, rest) -> length vs = n.
Proof.
  revert file vs rest. induction n as [|n IH]; simpl; intros file vs rest H.
  - injection H as <- _. reflexivity.
  - bind_inv H as [v file1] H1. bind_inv H as [vs' file2] H2.
    injection H as <- _. simpl. f_equal. eapply IH, H2.
Qed.


Lemma read_bool_inv file b rest :
  read_bool file = Ok (b, rest) ->
  exists flag, file = flag :: rest /\ b = negb (Byte.eqb flag x00).
Proof.
  destruct file as [|flag file]; simpl; [discriminate|].
  intros [= <- <-]. eauto.
Qed.

(** A stream [read] accepts is laid out as section 6 of the specification
    has it, and each field is decoded from its part. *)
Lemma read_layout_sound (self p : Pass) file rest :
  read self file = Ok (p, rest) ->
  wire_layout (default_blend_mode self) p file rest.
Proof.
  unfold wire_layout.
  unfold read. intros H.
  bind_inv H as [name' f1] H1. apply read_string_inv in H1 as [-> Hn].
  bind_inv H as [bits f2] H2. apply read_string_inv in H2 as [-> Hb].
  bind_inv H as platforms Hsp.
  bind_inv H as [fallback f3] H3. apply read_string_inv in H3 as [-> Hf].
  bind_inv H as [has_mode f4] H4.
  apply read_bool_inv in H4 as (flag & -> & ->).
  bind_inv H as [mode f5] Hmode.
  assert (exists code, f4 = code ++ f5
            /\ (flag <> x00 ->
                exists c, code = enc_ushort c /\ 0 <= c <= 65535
                          /\ BlendMode_getitem c = Some mode)
            /\ (flag = x00 ->
                code = [] /\ mode = default_blend_mode self))
    as (code & -> & Htrue & Hfalse).
  { destruct (Byte.eqb flag x00) eqn:Eflag; simpl in Hmode.
    - injection Hmode as <- <-. exists []. split; [reflexivity|].
      apply Byte.byte_dec_bl in Eflag. split; [congruence | auto].
    - bind_inv Hmode as [c f5'] Hcode.
      apply read_ushort_inv in Hcode as [-> Hcr].
      bind_inv Hmode as m Hm. injection Hmode as <- <-.
      destruct (BlendMode_getitem c) as [m'|] eqn:Eg; [|discriminate].
      injection Hm as ->.
      exists (enc_ushort c). split; [reflexivity|]. split.
      + intros _. exists c. auto.
      + intros ->. discriminate. }
  clear Hmode.
  bind_inv H as [count f6] H6. apply read_ushort_inv in H6 as [-> Hc].
  bind_inv H as [dv f7] H7.
  apply read_default_variant_inv in H7 as (kvs & Hlen & -> & -> & Hs).
  bind_inv H as [vcount f8] H8. apply read_ushort_inv in H8 as [-> Hvc].
  bind_inv H as [vs f9] H9. injection H as <- <-. simpl.
  pose proof (read_variants_length _ _ _ _ H9) as Hvl.
  assert (Z.of_nat (length kvs) = count) as <- by lia.
  assert (Z.of_nat (length vs) = vcount) as <- by lia.
  rewrite Nat2Z.id in H9.
  exists bits, flag, code, kvs, f8. rewrite <- ?app_assoc.
  repeat split; auto; try lia.
  all: edestruct Hfalse as [? ?]; eauto.
Qed.


End Codec.

(** ** The sample collaborators satisfy the laws *)
Module Sample_facts.
Import Sample.

Lemma names_nonempty : BlendMode_names_nonempty (BlendMode := Mode).
Proof. intros []; discriminate. Qed.

Lemma platforms_faithful :
  SupportedPlatforms_codec_faithful (SupportedPlatforms := string).
Proof. intros p. exists p. split; reflexivity. Qed.

Lemma variants_faithful : Variant_codec_faithful (Body := string).
Proof.
  intros v b rest H. cbn [Variant_write Variants] in H.
  apply write_string_Ok in H as [-> Hl].
  exists (mkVariant [] (body v)). split.
  - cbn [Variant_read Variants]. rewrite read_enc_string by exact Hl.
    reflexivity.
  - cbn [Variant_write Variants body]. apply write_string_Ok. auto.
Qed.

Lemma load_defaulting :
  SupportedPlatforms_load_defaulting (SupportedPlatforms := string).
Proof. intros p. reflexivity. Qed.

Lemma merge_flags : merge_keeps_flags (Body := string).
Proof. intros v o. reflexivity. Qed.

End Sample_facts.

(** ** The second blend mode table follows the protocol of [Enum] *)
Module EnumSample_facts.
Import EnumSample.

Lemma subscript_by_name : BlendMode_subscript_by_name (BlendMode := Mode).
Proof. intros code. reflexivity. Qed.

Lemma call_by_value : BlendMode_call_by_value (BlendMode := Mode).
Proof.
  intros j m H. destruct j as [| |n| | |]; try discriminate.
  cbn in H.
  destruct (Z.eqb_spec n 0) as [->|_]; [injection H as <-; reflexivity|].
  destruct (Z.eqb_spec n 1) as [->|_]; [injection H as <-; reflexivity|].
  destruct (Z.eqb_spec n 2) as [->|_]; [injection H as <-; reflexivity|].
  discriminate.
Qed.

End EnumSample_facts.

(** ** Properties of the binary codec *)
Section CodecProperties.
Context {BlendMode SupportedPlatforms Body : Type}.
Context `{BM : BlendModeTable BlendMode}.
Context `{SP : PlatformSet SupportedPlatforms}.
Context `{VO : VariantOps Body}.

#[local] Abbreviation Pass := (Pass BlendMode SupportedPlatforms Body).

(** C1. Binary round trip. [write] packs the [value] of a default blend
    mode, and [read] hands the integer to the subscript of the enumeration,
    which looks members up by name: reading back the bytes [write] produced
    for a pass with a default blend mode raises, whatever the pass. For a
    pass without one, [Pass().read] consumes the bytes [write] produced and
    returns a pass for which [write] produces the same bytes again. *)
Theorem read_rejects_written_blend_mode :
  SupportedPlatforms_codec_faithful ->
  (BlendMode_subscript_by_name ->
   forall (p : Pass) b,
     default_blend_mode p <> Unspecified ->
     write p = Ok b ->
     read Pass_init b = Err UnknownCodeError)
  /\ (Variant_codec_faithful ->
      forall (p : Pass) b,
        default_blend_mode p = Unspecified ->
        Dict.wf (default_variant p) ->
        write p = Ok b ->
        exists p', read Pass_init b = Ok (p', []) /\ write p' = Ok b).
Proof.
  intros Hsp. split.
  - intros Hname p b Hmode Hw.
    pose proof (read_write_specified Pass_init p b [] Hname Hsp Hmode Hw) as H.
    rewrite app_nil_r in H. exact H.
  - intros Hvar p b Hmode Hwf Hw.
    destruct (read_write_sentinel Pass_init p b [] Hsp Hvar eq_refl Hmode Hwf Hw)
      as (p' & Hr & Hw' & _).
    rewrite app_nil_r in Hr. eauto.
Qed.


(** C4. The flag byte [write] emits after the three strings is 1 exactly
    when [default_blend_mode] is not the sentinel; the 16-bit code follows
    only in that case, and when the blend mode is the sentinel the flag
    byte 0 is followed at once by the count of [default_variant]: no code
    is written for the sentinel. *)
Theorem write_blend_mode_flag (self : Pass) b :
  write self = Ok b ->
  exists flag code b_vs,
    write_variants (variants self) = Ok b_vs
    /\ b = enc_string (name self)
           ++ enc_string (get_bit_string (supported_platforms self))
           ++ enc_string (fallback_pass self)
           ++ [flag] ++ code
           ++ enc_ushort (Z.of_nat (length (default_variant self)))
           ++ enc_items (default_variant self)
           ++ enc_ushort (Z.of_nat (length (variants self)))
           ++ b_vs
    /\ (default_blend_mode self = Unspecified -> flag = x00 /\ code = [])
    /\ (default_blend_mode self <> Unspecified ->
        flag = x01
        /\ code = enc_ushort (BlendMode_value (default_blend_mode self))
        /\ 0 <= BlendMode_value (default_blend_mode self) <= 65535).
Proof.
  intros H. apply write_layout in H
    as (b_vs & Hvs & -> & _ & _ & _ & Hm & _).
  unfold mode_specified in *.
  destruct (decide (default_blend_mode self = Unspecified)) as [E|E].
  - exists x00, [], b_vs. repeat split; auto; contradiction.
  - exists x01, (enc_ushort (BlendMode_value (default_blend_mode self))), b_vs.
    repeat split; auto; try contradiction; apply Hm; reflexivity.
Qed.

End CodecProperties.

(** ** Properties of the descriptor codec *)
Section TreeProperties.
Context {BlendMode SupportedPlatforms Body : Type}.
Context `{BM : BlendModeTable BlendMode}.
Context `{SP : PlatformSet SupportedPlatforms}.
Context `{VO : VariantOps Body}.
Context `{PL : PyLib}.

#[local] Abbreviation Pass := (Pass BlendMode SupportedPlatforms Body).

(** The steps of [load], one per field, in the order of the statements. *)
Lemma load_Ok (self p' : Pass) (object : dict json) path :
  load self object path = Ok p' <->
  match Dict.get "name" object with
  | Some j => as_str j
  | None => Ok (name self)
  end = Ok (name p')
  /\ SupportedPlatforms_load (supported_platforms self)
       (default (JObj []) (Dict.get "supported_platforms" object))
     = Ok (supported_platforms p')
  /\ match Dict.get "fallback_pass" object with
     | Some j => as_str j
     | None => Ok (fallback_pass self)
     end = Ok (fallback_pass p')
  /\ match default JNull (Dict.get "default_blend_mode" object) with
     | JNull => Ok (default_blend_mode self)
     | m => if truthy m
            then from_lookup UnknownBlendModeError (BlendMode_call m)
            else Ok Unspecified
     end = Ok (default_blend_mode p')
  /\ match Dict.get "default_variant" object with
     | Some j => as_str_dict j
     | None => Ok (default_variant self)
     end = Ok (default_variant p')
  /\ match Dict.get "variants" object with
     | Some (JArr l) =>
         traverse (fun variant =>
                     Variant_load variant (os_path_join path (name p'))) l
     | Some _ => Err TypeError
     | None => Ok (variants self)
     end = Ok (variants p').
Proof.
  unfold load. split.
  - intros H.
    bind_inv H as n Hn. bind_inv H as sp Hsp. bind_inv H as fb Hfb.
    bind_inv H as m Hm. bind_inv H as dv Hdv. bind_inv H as vs Hvs.
    injection H as <-. cbn [name supported_platforms fallback_pass
      default_blend_mode default_variant variants]. auto 10.
  - intros (Hn & Hsp & Hfb & Hm & Hdv & Hvs).
    rewrite Hn. mstep. rewrite Hsp. mstep. rewrite Hfb. mstep.
    rewrite Hm. mstep. rewrite Hdv. mstep. rewrite Hvs. mstep.
    destruct p'; reflexivity.
Qed.

(** C5. Blend mode in tree form. [serialize_properties] stores the empty
    string when the blend mode is the sentinel and the member's name
    otherwise (so, names being non-empty, the empty string exactly for the
    sentinel). [load] of an empty string returns the pass with the blend
    mode reset to the sentinel, whenever the other fields load. [load] of a
    non-empty string hands it to the call of the enumeration, which looks
    members up by value: for every string, the name of a member included,
    the call finds nothing and [load] raises once the fields before it have
    loaded. *)
Theorem load_blend_mode_by_value (self : Pass) (object : dict json) path :
  Dict.get "default_blend_mode" (serialize_properties self)
  = Some (JStr (if decide (default_blend_mode self = Unspecified)
                then ""%string
                else BlendMode_name (default_blend_mode self)))
  /\ (BlendMode_names_nonempty ->
      (Dict.get "default_blend_mode" (serialize_properties self)
       = Some (JStr "")
       <-> default_blend_mode self = Unspecified))
  /\ (forall n sp fb dv vs,
        Dict.get "default_blend_mode" object = Some (JStr "") ->
        match Dict.get "name" object with
        | Some j => as_str j
        | None => Ok (name self)
        end = Ok n ->
        SupportedPlatforms_load (supported_platforms self)
          (default (JObj []) (Dict.get "supported_platforms" object))
        = Ok sp ->
        match Dict.get "fallback_pass" object with
        | Some j => as_str j
        | None => Ok (fallback_pass self)
        end = Ok fb ->
        match Dict.get "default_variant" object with
        | Some j => as_str_dict j
        | None => Ok (default_variant self)
        end = Ok dv ->
        match Dict.get "variants" object with
        | Some (JArr l) =>
            traverse (fun variant =>
                        Variant_load variant (os_path_join path n)) l
        | Some _ => Err TypeError
        | None => Ok (variants self)
        end = Ok vs ->
        load self object path
        = Ok {| name := n; supported_platforms := sp; fallback_pass := fb;
                default_blend_mode := Unspecified;
                default_variant := dv; variants := vs |})
  /\ (BlendMode_call_by_value ->
      forall s n sp fb,
        s <> ""%string ->
        Dict.get "default_blend_mode" object = Some (JStr s) ->
        match Dict.get "name" object with
        | Some j => as_str j
        | None => Ok (name self)
        end = Ok n ->
        SupportedPlatforms_load (supported_platforms self)
          (default (JObj []) (Dict.get "supported_platforms" object))
        = Ok sp ->
        match Dict.get "fallback_pass" object with
        | Some j => as_str j
        | None => Ok (fallback_pass self)
        end = Ok fb ->
        load self object path = Err UnknownBlendModeError).
Proof.
  assert (Hser : Dict.get "default_blend_mode" (serialize_properties self)
            = Some (JStr (if decide (default_blend_mode self = Unspecified)
                          then ""%string
                          else BlendMode_name (default_blend_mode self)))).
  { unfold serialize_properties, mode_specified. cbn.
    destruct (decide (default_blend_mode self = Unspecified)); reflexivity. }
  split; [exact Hser|]. split; [|split].
  - intros Hne. rewrite Hser.
    destruct (decide (default_blend_mode self = Unspecified)) as [E|E].
    + split; auto.
    + split; [|contradiction]. intros [= Hn]. destruct (Hne _ Hn).
  - intros n sp fb dv vs Hget Hn Hsp Hfb Hdv Hvs.
    apply load_Ok.
    cbn [name supported_platforms fallback_pass default_blend_mode
         default_variant variants].
    rewrite Hget. cbn [default from_option id truthy String.eqb negb].
    auto 10.
  - intros Hval s n sp fb Hs Hget Hn Hsp Hfb. unfold load.
    rewrite Hn. mstep. rewrite Hsp. mstep. rewrite Hfb. mstep.
    rewrite Hget. cbn.
    destruct (String.eqb_spec s ""); [contradiction|]. cbn.
    destruct (BlendMode_call (JStr s)) as [m|] eqn:E; [|reflexivity].
    apply Hval in E. discriminate.
Qed.

(** C6. Defaulting on load. Provided loading an empty object into a
    platform set changes nothing, loading the empty tree returns the pass
    as it was, and after any successful load each field whose key is
    absent from the tree has the value it had before. *)
Theorem load_defaulting_keeps_fields (self : Pass) path :
  SupportedPlatforms_load_defaulting ->
  load self [] path = Ok self
  /\ forall (object : dict json) p',
       load self object path = Ok p' ->
       (Dict.get "name" object = None -> name p' = name self)
       /\ (Dict.get "supported_platforms" object = None ->
           supported_platforms p' = supported_platforms self)
       /\ (Dict.get "fallback_pass" object = None ->
           fallback_pass p' = fallback_pass self)
       /\ (Dict.get "default_blend_mode" object = None ->
           default_blend_mode p' = default_blend_mode self)
       /\ (Dict.get "default_variant" object = None ->
           default_variant p' = default_variant self)
       /\ (Dict.get "variants" object = None ->
           variants p' = variants self).
Proof.
  intros Hsp. split.
  - apply load_Ok. cbn. rewrite Hsp. auto 10.
  - intros object p' Hl.
    apply load_Ok in Hl as (Hn & Hp & Hf & Hm & Hd & Hv).
    repeat split; intros E; rewrite E in *; cbn in *.
    + congruence.
    + rewrite Hsp in Hp. congruence.
    + congruence.
    + congruence.
    + congruence.
    + congruence.
Qed.

(** C10. When the tree holds both a name and a list of variants, [load]
    stores the name of the tree and loads every variant, in order, with
    the path joined from [path] and that new name. *)
Theorem load_variants_under_new_name (self p' : Pass) (object : dict json)
    path new_name l :
  Dict.get "name" object = Some (JStr new_name) ->
  Dict.get "variants" object = Some (JArr l) ->
  load self object path = Ok p' ->
  name p' = new_name
  /\ traverse (fun variant =>
                 Variant_load variant (os_path_join path new_name)) l
     = Ok (variants p').
Proof.
  intros Hn Hv Hl. apply load_Ok in Hl as (Hn' & _ & _ & _ & _ & Hv').
  rewrite Hn in Hn'. cbn in Hn'. injection Hn' as Hn'.
  rewrite Hv, <- Hn' in Hv'. auto.
Qed.

End TreeProperties.

(** ** Merging *)
Section Merge.
Context {BlendMode SupportedPlatforms Body : Type}.
Context `{BM : BlendModeTable BlendMode}.
Context `{SP : PlatformSet SupportedPlatforms}.
Context `{VO : VariantOps Body}.

#[local] Abbreviation Pass := (Pass BlendMode SupportedPlatforms Body).
Implicit Types (vs os : list (Variant Body)) (o v : Variant Body).

Lemma merge_into_match vs o i v :
  vs !! i = Some v ->
  flags_match o v ->
  (forall j w, vs !! j = Some w -> (j < i)%nat -> ~ flags_match o w) ->
  merge_into vs o = <[i := merge_variant v o]> vs.
Proof.
  intros Hi Hm Hfirst. unfold merge_into.
  rewrite (proj2 (list_find_Some (flags_match o) vs i v)); auto.
Qed.

Lemma merge_into_no_match vs o :
  (forall v, v ∈ vs -> ~ flags_match o v) ->
  merge_into vs o = vs ++ [o].
Proof.
  intros Hnone. unfold merge_into.
  rewrite (proj2 (list_find_None (flags_match o) vs)); [reflexivity|].
  apply Forall_forall. exact Hnone.
Qed.

Lemma merge_into_cases vs o :
  (exists i v, vs !! i = Some v /\ flags_match o v
               /\ merge_into vs o = <[i := merge_variant v o]> vs)
  \/ merge_into vs o = vs ++ [o].
Proof.
  unfold merge_into.
  destruct (list_find (flags_match o) vs) as [[i v]|] eqn:E; [|auto].
  apply list_find_Some in E as (Hi & Hm & _). left. eauto.
Qed.

Lemma variants_merge_variants (self other : Pass) :
  variants (merge_variants self other)
  = fold_left merge_into (variants other) (variants self).
Proof.
  unfold merge_variants. generalize (variants other) as os.
  intros os. revert self.
  induction os as [|o os IH]; intros self; [reflexivity|].
  cbn [fold_left]. rewrite IH. reflexivity.
Qed.

(** The shape of the list after the loop: the variants [self] had, at
    their positions and with their flags, followed by appended variants
    whose flags follow the order of [os]. *)
Lemma merge_fold_shape os vs :
  merge_keeps_flags ->
  exists pre app,
    fold_left merge_into os vs = pre ++ app
    /\ length pre = length vs
    /\ flags <$> pre = flags <$> vs
    /\ sublist (flags <$> app) (flags <$> os).
Proof.
  intros Hkeep. revert vs.
  induction os as [|o os IH]; intros vs; cbn [fold_left].
  - exists vs, []. rewrite app_nil_r. repeat split; auto.
  - destruct (IH (merge_into vs o)) as (pre & app & Hf & Hlen & Hfl & Hsub).
    destruct (merge_into_cases vs o) as [(i & v & Hi & Hm & E)|E];
      rewrite E in *.
    + exists pre, app. rewrite length_insert in Hlen.
      rewrite list_fmap_insert, Hkeep in Hfl.
      rewrite list_insert_id in Hfl
        by (rewrite list_lookup_fmap, Hi; reflexivity).
      repeat split; auto. rewrite fmap_cons. apply sublist_cons, Hsub.
    + rewrite length_app in Hlen. cbn in Hlen.
      exists (take (length vs) pre), (drop (length vs) pre ++ app).
      rewrite app_assoc, take_drop. split; [exact Hf|].
      split; [rewrite length_take; lia|]. split.
      * rewrite fmap_take, Hfl, fmap_app.
        rewrite take_app_length'; [reflexivity|].
        rewrite length_fmap. reflexivity.
      * rewrite fmap_app, fmap_drop, Hfl, fmap_app.
        rewrite drop_app_length'; [|rewrite length_fmap; reflexivity].
        cbn. apply sublist_skip, Hsub.
Qed.

(** C9. Frame of [merge_variants]: whatever the two passes hold, the
    name, the supported platforms, the fallback pass, the default blend
    mode and the default variant of [self] are what they were. *)
Theorem merge_variants_frame (self other : Pass) :
  name (merge_variants self other) = name self
  /\ supported_platforms (merge_variants self other)
     = supported_platforms self
  /\ fallback_pass (merge_variants self other) = fallback_pass self
  /\ default_blend_mode (merge_variants self other)
     = default_blend_mode self
  /\ default_variant (merge_variants self other) = default_variant self.
Proof.
  unfold merge_variants. generalize (variants other) as os.
  intros os. revert self.
  induction os as [|o os IH]; intros self; cbn [fold_left].
  - auto.
  - destruct (IH (merge_one self o)) as (H1 & H2 & H3 & H4 & H5).
    rewrite H1, H2, H3, H4, H5. auto.
Qed.

(** C2. [merge_variants] handles the variants of [other] in order, each
    against the list as it stands then. A variant whose flags equal (same
    keys, same values) those of a variant in the list is merged, by
    [merge_variant], into the first such variant and the list keeps its
    length; a variant whose flags equal none is appended as it is.
    Provided merging keeps the flags of the variant merged into, the
    variants [self] had keep their positions and flags, and the appended
    variants follow in the order of [other]. Merging [[{x:1}]] with
    [[{x:1}, {x:2}]] gives two variants: the first merged, the second
    appended. *)
Theorem merge_variants_correct (self other : Pass) :
  variants (merge_variants self other)
  = fold_left merge_into (variants other) (variants self)
  /\ (forall v o, Dict.wf (flags v) -> Dict.wf (flags o) ->
        flags_match o v
        <-> forall k, Dict.get k (flags v) = Dict.get k (flags o))
  /\ (forall vs o i v,
        vs !! i = Some v ->
        flags_match o v ->
        (forall j w, vs !! j = Some w -> (j < i)%nat -> ~ flags_match o w) ->
        merge_into vs o = <[i := merge_variant v o]> vs
        /\ length (merge_into vs o) = length vs)
  /\ (forall vs o,
        (forall v, v ∈ vs -> ~ flags_match o v) ->
        merge_into vs o = vs ++ [o])
  /\ (merge_keeps_flags ->
      exists pre app,
        variants (merge_variants self other) = pre ++ app
        /\ length pre = length (variants self)
        /\ flags <$> pre = flags <$> variants self
        /\ sublist (flags <$> app) (flags <$> variants other))
  /\ (merge_keeps_flags ->
      forall a b1 b2 : Body,
        variants self = [mkVariant [("x", "1")] a]%string ->
        variants other = [mkVariant [("x", "1")] b1;
                          mkVariant [("x", "2")] b2]%string ->
        variants (merge_variants self other)
        = [merge_variant (mkVariant [("x", "1")] a)
                         (mkVariant [("x", "1")] b1);
           mkVariant [("x", "2")] b2]%string).
Proof.
  split; [apply variants_merge_variants|].
  split; [intros v o Hv Ho; apply flags_eqb_same_bindings; assumption|].
  split.
  { intros vs o i v Hi Hm Hfirst.
    rewrite (merge_into_match vs o i v Hi Hm Hfirst).
    split; [reflexivity | apply length_insert]. }
  split; [apply merge_into_no_match|].
  split.
  { intros Hkeep. rewrite variants_merge_variants.
    apply merge_fold_shape, Hkeep. }
  intros Hkeep a b1 b2 Hs Ho.
  rewrite variants_merge_variants, Hs, Ho. cbn [fold_left].
  set (va := mkVariant [("x", "1")]%string a).
  set (vb1 := mkVariant [("x", "1")]%string b1).
  set (vb2 := mkVariant [("x", "2")]%string b2).
  assert (E1 : merge_into [va] vb1 = [merge_variant va vb1]).
  { rewrite (merge_into_match [va] vb1 0%nat va).
    - reflexivity.
    - reflexivity.
    - reflexivity.
    - intros j w _ Hj. lia. }
  rewrite E1. apply merge_into_no_match. intros v Hv.
  apply list_elem_of_singleton in Hv as ->.
  unfold flags_match. rewrite Hkeep. cbn. discriminate.
Qed.

End Merge.

(** ** Sorting *)
Section SortingFacts.
Context {A : Type} (lt : A -> A -> bool).
Hypothesis lt_asym : forall x y, lt x y = true -> lt y x = false.

Lemma insert_sorted_Sorted x l :
  Sorted (in_order lt) l -> Sorted (in_order lt) (insert_sorted lt x l).
Proof.
  induction l as [|y l IH]; intros Hs; cbn [insert_sorted].
  - repeat constructor.
  - destruct (lt y x) eqn:E.
    + apply Sorted_inv in Hs as [Hs Hhd]. constructor; [apply IH, Hs|].
      destruct l as [|z l]; cbn [insert_sorted].
      * constructor. apply lt_asym, E.
      * apply HdRel_inv in Hhd.
        destruct (lt z x); constructor; [exact Hhd | apply lt_asym, E].
    + constructor; [exact Hs|]. constructor. exact E.
Qed.

Lemma sorted_Sorted l : Sorted (in_order lt) (sorted lt l).
Proof.
  induction l as [|x l IH]; [constructor|].
  apply insert_sorted_Sorted, IH.
Qed.

Lemma sorted_fixpoint l : Sorted (in_order lt) l -> sorted lt l = l.
Proof.
  induction 1 as [|x l Hs IH Hhd]; [reflexivity|].
  cbn [sorted fold_right]. fold (sorted lt l). rewrite IH.
  destruct Hhd as [|y l Hxy]; [reflexivity|].
  cbn [insert_sorted]. unfold in_order in Hxy. rewrite Hxy. reflexivity.
Qed.

Lemma sorted_idempotent l : sorted lt (sorted lt l) = sorted lt l.
Proof. apply sorted_fixpoint, sorted_Sorted. Qed.

Lemma insert_sorted_Permutation x l : insert_sorted lt x l ≡ₚ x :: l.
Proof.
  induction l as [|y l IH]; cbn [insert_sorted]; [reflexivity|].
  destruct (lt y x); [|reflexivity].
  rewrite IH. apply perm_swap.
Qed.

Lemma sorted_Permutation l : sorted lt l ≡ₚ l.
Proof.
  induction l as [|x l IH]; [reflexivity|].
  cbn [sorted fold_right]. fold (sorted lt l).
  rewrite insert_sorted_Permutation, IH. reflexivity.
Qed.

End SortingFacts.

Lemma map_fixpoints {A} (f : A -> A) l :
  Forall (fun x => f x = x) l -> map f l = l.
Proof.
  induction 1 as [|x l Hx _ IH]; [reflexivity|].
  cbn [map]. rewrite Hx, IH. reflexivity.
Qed.

Lemma Sorted_weaken {A} (R R' : A -> A -> Prop) l :
  (forall x y, R x y -> R' x y) -> Sorted R l -> Sorted R' l.
Proof.
  intros HR. induction 1 as [|x l Hs IH Hhd]; constructor; [exact IH|].
  destruct Hhd; constructor; auto.
Qed.

Lemma string_ltb_asym s t : String.ltb s t = true -> String.ltb t s = false.
Proof.
  unfold String.ltb. rewrite (String.compare_antisym t s).
  destruct (String.compare s t); cbn; congruence.
Qed.

Lemma string_ltb_false_leb s t : String.ltb t s = false -> String.leb s t = true.
Proof.
  unfold String.ltb, String.leb. rewrite (String.compare_antisym s t).
  destruct (String.compare t s); cbn; congruence.
Qed.

Lemma string_leb_refl s : String.leb s s = true.
Proof.
  unfold String.leb. pose proof (String.compare_antisym s s) as H.
  destruct (String.compare s s); cbn in H; congruence.
Qed.

Lemma ascii_compare_refl a : Ascii.compare a a = Eq.
Proof. unfold Ascii.compare. apply N.compare_refl. Qed.

Lemma string_compare_refl s : String.compare s s = Eq.
Proof.
  induction s as [|a s IH]; [reflexivity|].
  cbn [String.compare]. rewrite ascii_compare_refl. exact IH.
Qed.

Lemma string_compare_Lt_trans s t u :
  String.compare s t = Lt -> String.compare t u = Lt ->
  String.compare s u = Lt.
Proof.
  revert t u. induction s as [|a s IH]; intros [|b t] [|c u];
    cbn [String.compare]; try discriminate; auto.
  destruct (Ascii.compare a b) eqn:Eab; try discriminate;
    destruct (Ascii.compare b c) eqn:Ebc; try discriminate; intros H1 H2.
  - apply Ascii.compare_eq_iff in Eab as ->.
    apply Ascii.compare_eq_iff in Ebc as ->.
    rewrite ascii_compare_refl. eapply IH; eassumption.
  - apply Ascii.compare_eq_iff in Eab as ->. rewrite Ebc. reflexivity.
  - apply Ascii.compare_eq_iff in Ebc as <-. rewrite Eab. reflexivity.
  - assert (E : Ascii.compare a c = Lt).
    { unfold Ascii.compare in *. rewrite N.compare_lt_iff in *. lia. }
    rewrite E. reflexivity.
Qed.

Lemma string_leb_trans s t u :
  String.leb s t = true -> String.leb t u = true -> String.leb s u = true.
Proof.
  unfold String.leb.
  destruct (String.compare s t) eqn:Est; try discriminate;
    destruct (String.compare t u) eqn:Etu; try discriminate; intros _ _.
  - apply String.compare_eq_iff in Est as ->. rewrite Etu. reflexivity.
  - apply String.compare_eq_iff in Est as ->. rewrite Etu. reflexivity.
  - apply String.compare_eq_iff in Etu as <-. rewrite Est. reflexivity.
  - rewrite (string_compare_Lt_trans s t u Est Etu). reflexivity.
Qed.

#[local] Instance key_le_trans : Transitive key_le.
Proof. intros a b c. unfold key_le. apply string_leb_trans. Qed.

Lemma item_ltb_asym a b : item_ltb a b = true -> item_ltb b a = false.
Proof.
  unfold item_ltb. rewrite (String.eqb_sym (fst b) (fst a)).
  destruct (String.eqb (fst a) (fst b)); apply string_ltb_asym.
Qed.

Lemma item_in_order_key_le a b : in_order item_ltb a b -> key_le a b.
Proof.
  unfold in_order, item_ltb, key_le.
  destruct (String.eqb_spec (fst b) (fst a)) as [->|_].
  - intros _. apply string_leb_refl.
  - apply string_ltb_false_leb.
Qed.

Section SortVariants.
Context {BlendMode SupportedPlatforms Body : Type}.
Context `{PL : PyLib}.

#[local] Abbreviation Pass := (Pass BlendMode SupportedPlatforms Body).

#[local] Instance str_le_trans : Transitive (str_le (Body := Body)).
Proof. intros a b c. unfold str_le. apply string_leb_trans. Qed.

Lemma variant_ltb_asym (a b : Variant Body) :
  variant_ltb a b = true -> variant_ltb b a = false.
Proof. apply string_ltb_asym. Qed.

Lemma sorted_items_wf (d : dict string) :
  Dict.wf d -> Dict.wf (sorted item_ltb d).
Proof.
  unfold Dict.wf, Dict.keys. intros Hwf.
  rewrite (sorted_Permutation item_ltb d). exact Hwf.
Qed.

Lemma sort_items_sorted (d : dict string) :
  Dict.wf d -> sort_items d = sorted item_ltb d.
Proof. intros Hwf. apply of_items_id, sorted_items_wf, Hwf. Qed.

Lemma sort_items_idempotent (d : dict string) :
  Dict.wf d -> sort_items (sort_items d) = sort_items d.
Proof.
  intros Hwf. rewrite (sort_items_sorted d Hwf).
  rewrite sort_items_sorted by (apply sorted_items_wf, Hwf).
  apply sorted_idempotent, item_ltb_asym.
Qed.

Lemma sort_flags_idempotent (v : Variant Body) :
  Dict.wf (flags v) -> sort_flags (sort_flags v) = sort_flags v.
Proof.
  intros Hwf. unfold sort_flags. cbn [flags body].
  rewrite sort_items_idempotent by exact Hwf. reflexivity.
Qed.

(** C7. For a pass whose dictionaries have distinct keys, [sort_variants]
    applied twice gives the state it gives applied once. After it
    [default_variant] holds the same items ordered by key, every variant
    holds its flags ordered by key, and the list holds the same variants
    ordered by the string form of their flags. *)
Theorem sort_variants_idempotent (p : Pass) :
  Dict.wf (default_variant p) ->
  Forall (fun v => Dict.wf (flags v)) (variants p) ->
  sort_variants (sort_variants p) = sort_variants p
  /\ default_variant (sort_variants p) ≡ₚ default_variant p
  /\ StronglySorted key_le (default_variant (sort_variants p))
  /\ variants (sort_variants p) ≡ₚ sort_flags <$> variants p
  /\ (forall v, v ∈ variants p ->
        flags (sort_flags v) ≡ₚ flags v
        /\ StronglySorted key_le (flags (sort_flags v))
        /\ body (sort_flags v) = body v)
  /\ StronglySorted str_le (variants (sort_variants p)).
Proof.
  intros Hdv Hvs.
  assert (Hitems : forall d, Dict.wf d ->
            sort_items d ≡ₚ d /\ StronglySorted key_le (sort_items d)).
  { intros d Hwf. rewrite (sort_items_sorted d Hwf). split.
    - apply sorted_Permutation.
    - apply Sorted_StronglySorted; [apply key_le_trans|].
      apply (Sorted_weaken (in_order item_ltb)).
      + apply item_in_order_key_le.
      + apply sorted_Sorted, item_ltb_asym. }
  split; [|split; [|split; [|split; [|split]]]].
  - unfold sort_variants.
    cbn [name supported_platforms fallback_pass default_blend_mode
         default_variant variants].
    rewrite sort_items_idempotent by exact Hdv. f_equal.
    assert (Hfix : map sort_flags (sorted variant_ltb (map sort_flags (variants p)))
                   = sorted variant_ltb (map sort_flags (variants p))).
    { apply map_fixpoints.
      rewrite (sorted_Permutation variant_ltb).
      apply Forall_forall. intros v Hv.
      apply list_elem_of_fmap in Hv as (v0 & -> & Hv0).
      rewrite Forall_forall in Hvs.
      apply sort_flags_idempotent, Hvs, Hv0. }
    rewrite Hfix. apply sorted_idempotent, variant_ltb_asym.
  - apply Hitems, Hdv.
  - apply Hitems, Hdv.
  - apply (sorted_Permutation variant_ltb).
  - intros v Hv. rewrite Forall_forall in Hvs.
    destruct (Hitems (flags v) (Hvs v Hv)). auto.
  - cbn [sort_variants variants].
    apply Sorted_StronglySorted; [apply str_le_trans|].
    apply (Sorted_weaken (in_order variant_ltb)).
    + intros a b. apply string_ltb_false_leb.
    + apply sorted_Sorted, variant_ltb_asym.
Qed.

End SortVariants.

(** ** Flag definitions *)
Section FlagDefinitions.
Context {BlendMode SupportedPlatforms Body : Type}.

#[local] Abbreviation Pass := (Pass BlendMode SupportedPlatforms Body).
Implicit Types (definitions : dict (gset string)) (k v : string).

Lemma get_add_flag definitions k0 v0 k :
  Dict.get k (add_flag definitions (k0, v0))
  = if String.eqb k k0
    then Some (default ∅ (Dict.get k0 definitions) ∪ {[v0]})
    else Dict.get k definitions.
Proof.
  unfold add_flag, Dict.mem. cbn [fst snd].
  destruct (Dict.get k0 definitions) as [S|] eqn:E.
  - rewrite get_set, E. reflexivity.
  - rewrite !get_set, String.eqb_refl.
    destruct (String.eqb k k0); reflexivity.
Qed.

Lemma add_flag_wf definitions kv :
  Dict.wf definitions -> Dict.wf (add_flag definitions kv).
Proof.
  intros Hwf. unfold add_flag.
  destruct (Dict.mem (fst kv) definitions); repeat apply set_wf; exact Hwf.
Qed.

Lemma takes_value_add_flag definitions k0 v0 k v :
  takes_value (add_flag definitions (k0, v0)) k v
  <-> takes_value definitions k v \/ (k = k0 /\ v = v0).
Proof.
  unfold takes_value. rewrite get_add_flag.
  destruct (String.eqb_spec k k0) as [->|Hne].
  - split.
    + intros (S & [= <-] & Hv). apply elem_of_union in Hv as [Hv|Hv].
      * left. destruct (Dict.get k0 definitions) as [S|]; [eauto|].
        cbn in Hv. set_solver.
      * right. set_solver.
    + intros [(S & HS & Hv)|[_ ->]]; eexists; (split; [reflexivity|]).
      * rewrite HS. cbn. set_solver.
      * set_solver.
  - split; [intros H; left; exact H|].
    intros [H|[E _]]; [exact H | contradiction].
Qed.

Lemma is_Some_add_flag definitions k0 v0 k :
  is_Some (Dict.get k (add_flag definitions (k0, v0)))
  <-> is_Some (Dict.get k definitions) \/ k = k0.
Proof.
  rewrite get_add_flag. destruct (String.eqb_spec k k0) as [->|Hne].
  - split; [auto | eauto].
  - split; [auto|]. intros [H|E]; [exact H | contradiction].
Qed.

Lemma fold_add_flag (fl : dict string) definitions k :
  (forall v, takes_value (fold_left add_flag fl definitions) k v
             <-> takes_value definitions k v \/ (k, v) ∈ fl)
  /\ (is_Some (Dict.get k (fold_left add_flag fl definitions))
      <-> is_Some (Dict.get k definitions) \/ k ∈ Dict.keys fl)
  /\ (Dict.wf definitions -> Dict.wf (fold_left add_flag fl definitions)).
Proof.
  revert definitions. induction fl as [|[k0 v0] fl IH]; intros definitions.
  - cbn [fold_left]. split; [|split]; [| |auto].
    + intros v. rewrite elem_of_nil. tauto.
    + unfold Dict.keys. cbn. rewrite elem_of_nil. tauto.
  - cbn [fold_left].
    destruct (IH (add_flag definitions (k0, v0))) as (Hv & Hs & Hw).
    split; [|split].
    + intros v. rewrite Hv, takes_value_add_flag, elem_of_cons.
      split; [intros [[H|[-> ->]]|H] | intros [H|[[= -> ->]|H]]]; auto.
    + rewrite Hs, is_Some_add_flag. unfold Dict.keys.
      rewrite fmap_cons, elem_of_cons. cbn [fst]. tauto.
    + intros Hwf. apply Hw, add_flag_wf, Hwf.
Qed.

Lemma fold_variants (vs : list (Variant Body)) definitions k :
  (forall v,
      takes_value
        (fold_left (fun definitions variant =>
                      fold_left add_flag (flags variant) definitions)
                   vs definitions) k v
      <-> takes_value definitions k v
          \/ exists variant, variant ∈ vs /\ (k, v) ∈ flags variant)
  /\ (is_Some
        (Dict.get k
           (fold_left (fun definitions variant =>
                         fold_left add_flag (flags variant) definitions)
                      vs definitions))
      <-> is_Some (Dict.get k definitions)
          \/ exists variant, variant ∈ vs /\ k ∈ Dict.keys (flags variant))
  /\ (Dict.wf definitions ->
      Dict.wf (fold_left (fun definitions variant =>
                            fold_left add_flag (flags variant) definitions)
                         vs definitions)).
Proof.
  revert definitions. induction vs as [|a vs IH]; intros definitions.
  - cbn [fold_left]. split; [|split]; [| |auto].
    + intros v. split; [auto|]. intros [H|(x & Hx & _)]; [exact H|].
      apply elem_of_nil in Hx as [].
    + split; [auto|]. intros [H|(x & Hx & _)]; [exact H|].
      apply elem_of_nil in Hx as [].
  - cbn [fold_left].
    destruct (IH (fold_left add_flag (flags a) definitions)) as (Hv & Hs & Hw).
    destruct (fold_add_flag (flags a) definitions k) as (Hv1 & Hs1 & Hw1).
    split; [|split].
    + intros v. rewrite Hv, Hv1. split.
      * intros [[H|H]|(x & Hx & Hin)]; [auto | right | right].
        -- exists a. split; [left | exact H].
        -- exists x. split; [right; exact Hx | exact Hin].
      * intros [H|(x & Hx & Hin)]; [auto|].
        apply elem_of_cons in Hx as [->|Hx]; [auto|]. right. eauto.
    + rewrite Hs, Hs1. split.
      * intros [[H|H]|(x & Hx & Hin)]; [auto | right | right].
        -- exists a. split; [left | exact H].
        -- exists x. split; [right; exact Hx | exact Hin].
      * intros [H|(x & Hx & Hin)]; [auto|].
        apply elem_of_cons in Hx as [->|Hx]; [auto|]. right. eauto.
    + intros Hwf. apply Hw, Hw1, Hwf.
Qed.

(** The comprehension that seeds the definitions from [default_variant]. *)
Lemma seed_definitions (d : dict string) k :
  Dict.wf d ->
  Dict.get k (Dict.of_items
                (map (fun kv => (fst kv, ({[snd kv]} : gset string))) d))
  = (fun v => {[v]}) <$> Dict.get k d.
Proof.
  intros Hwf. rewrite of_items_id.
  - induction d as [|[k0 v0] d IH]; [reflexivity|].
    cbn [map Dict.get fst snd].
    destruct (String.eqb k k0); [reflexivity|].
    apply IH. apply NoDup_cons in Hwf as [_ Hwf]. exact Hwf.
  - unfold Dict.wf, Dict.keys in *.
    rewrite <- list_fmap_compose.
    erewrite list_fmap_ext; [exact Hwf|]. intros ? [? ?] _. reflexivity.
Qed.

(** C8. For a pass whose [default_variant] has distinct keys, the keys of
    [get_flag_definitions] are the flag keys that occur in
    [default_variant] or in the flags of a variant, and the set under a
    key holds exactly the values the key is bound to there. For
    [default_variant = {a: "0"}] and one variant with flags
    [{a: "1", b: "2"}] the result is [{a: {"0", "1"}, b: {"2"}}]. *)
Theorem get_flag_definitions_complete (p : Pass) :
  Dict.wf (default_variant p) ->
  Dict.wf (get_flag_definitions p)
  /\ (forall k,
        is_Some (Dict.get k (get_flag_definitions p))
        <-> k ∈ Dict.keys (default_variant p)
            \/ exists variant,
                 variant ∈ variants p /\ k ∈ Dict.keys (flags variant))
  /\ (forall k v,
        takes_value (get_flag_definitions p) k v
        <-> Dict.get k (default_variant p) = Some v
            \/ exists variant,
                 variant ∈ variants p /\ (k, v) ∈ flags variant)
  /\ (forall b : Body,
        default_variant p = [("a", "0")]%string ->
        variants p = [mkVariant [("a", "1"); ("b", "2")] b]%string ->
        get_flag_definitions p
        = [("a", {["0"; "1"]}); ("b", {["2"]})]%string).
Proof.
  intros Hwf. unfold get_flag_definitions.
  split; [|split; [|split]].
  - apply fold_variants; [exact ""%string|]. apply of_items_wf.
  - intros k. rewrite (proj1 (proj2 (fold_variants _ _ k))).
    rewrite seed_definitions by exact Hwf.
    rewrite keys_get_Some, fmap_is_Some. reflexivity.
  - intros k v. rewrite (proj1 (fold_variants _ _ k)).
    unfold takes_value at 1. rewrite seed_definitions by exact Hwf.
    split; (intros [H|H]; [left | right; exact H]).
    + destruct H as (S & HS & Hv).
      destruct (Dict.get k (default_variant p)) as [v'|]; [|discriminate].
      injection HS as <-. set_solver.
    + rewrite H. eexists. split; [reflexivity | set_solver].
  - intros b Hdv Hvs. rewrite Hdv, Hvs. cbn.
    rewrite (left_id_L ∅ (∪)). reflexivity.
Qed.

End FlagDefinitions.

(** ** The properties at work on the sample instance *)
Module Examples.
Import Sample Sample_facts.

Lemma wf_decide {V} (d : dict V) :
  bool_decide (NoDup (Dict.keys d)) = true -> Dict.wf d.
Proof. intros H. exact (bool_decide_eq_true_1 _ H). Defined.

Lemma read_rejects_written_blend_mode_witness :
  write EnumSample.glow = Ok EnumSample.glow_bytes
  /\ read Pass_init EnumSample.glow_bytes = Err UnknownCodeError
  /\ exists p' : EnumSample.EPass,
       read Pass_init (match write EnumSample.plain with
                       | Ok b => b
                       | Err _ => []
                       end) = Ok (p', []).
Proof.
  assert (Hw : write EnumSample.glow = Ok EnumSample.glow_bytes)
    by reflexivity.
  destruct (read_rejects_written_blend_mode
              (BlendMode := EnumSample.Mode) (Body := string)
              platforms_faithful) as [Hfail Hok].
  split; [exact Hw|]. split.
  - apply (Hfail EnumSample_facts.subscript_by_name EnumSample.glow _
                 ltac:(discriminate) Hw).
  - destruct (Hok variants_faithful EnumSample.plain _ eq_refl
                  ltac:(apply wf_decide; reflexivity) eq_refl)
      as (p' & Hr & _).
    exists p'. exact Hr.
Defined.

(** On a receiver that is not new: reading a stream whose flag byte is
    zero into a pass that holds the blend mode [Blend] leaves [Blend] in
    place. *)
Lemma read_zero_flag_keeps_blend_mode :
  read terrain empty_bytes = Ok (terrain_reread, [])
  /\ empty_bytes !! 6%nat = Some x00
  /\ default_blend_mode terrain_reread <> Unspecified.
Proof.
  split; [reflexivity|]. split; [reflexivity|]. discriminate.
Qed.


Lemma write_blend_mode_flag_witness :
  write terrain = Ok terrain_bytes
  /\ exists flag code b_vs,
    write_variants (variants terrain) = Ok b_vs
    /\ terrain_bytes
       = enc_string (name terrain)
         ++ enc_string (get_bit_string (supported_platforms terrain))
         ++ enc_string (fallback_pass terrain)
         ++ [flag] ++ code
         ++ enc_ushort (Z.of_nat (length (default_variant terrain)))
         ++ enc_items (default_variant terrain)
         ++ enc_ushort (Z.of_nat (length (variants terrain)))
         ++ b_vs
    /\ (default_blend_mode terrain = Unspecified ->
        flag = x00 /\ code = [])
    /\ (default_blend_mode terrain <> Unspecified ->
        flag = x01
        /\ code = enc_ushort (BlendMode_value (default_blend_mode terrain))
        /\ 0 <= BlendMode_value (default_blend_mode terrain) <= 65535).
Proof.
  split; [reflexivity|].
  apply (write_blend_mode_flag terrain terrain_bytes). reflexivity.
Defined.

Lemma load_blend_mode_by_value_witness :
  load EnumSample.glow [("default_blend_mode", JStr "")]%string "."
  = Ok EnumSample.plain
  /\ load EnumSample.glow
       [("default_blend_mode",
         JStr (BlendMode_name (default_blend_mode EnumSample.glow)))]%string
       "."
     = Err UnknownBlendModeError.
Proof.
  split.
  - destruct (load_blend_mode_by_value EnumSample.glow
                [("default_blend_mode", JStr "")]%string ".")
      as (_ & _ & H & _).
    exact (H _ _ _ _ _ eq_refl eq_refl eq_refl eq_refl eq_refl eq_refl).
  - destruct (load_blend_mode_by_value EnumSample.glow
                [("default_blend_mode", JStr "Additive")]%string ".")
      as (_ & _ & _ & H).
    exact (H EnumSample_facts.call_by_value "Additive"%string _ _ _
             ltac:(discriminate) eq_refl eq_refl eq_refl eq_refl).
Defined.

Lemma load_defaulting_keeps_fields_witness :
  load terrain [] "mats" = Ok terrain.
Proof.
  exact (proj1 (load_defaulting_keeps_fields terrain "mats" load_defaulting)).
Defined.

Lemma load_variants_under_new_name_witness :
  load terrain water_tree "mats"
  = Ok (set_variants
          {| name := "water";
             supported_platforms := supported_platforms terrain;
             fallback_pass := fallback_pass terrain;
             default_blend_mode := default_blend_mode terrain;
             default_variant := default_variant terrain;
             variants := [] |}
          [mkVariant [("x", "1")] "mats/water"])%string
  /\ traverse (fun variant => Variant_load variant "mats/water"%string)
              [JObj [("x", JStr "1")]]%string
     = Ok [mkVariant [("x", "1")] "mats/water"]%string.
Proof.
  split; [reflexivity|].
  exact (proj2 (load_variants_under_new_name terrain _ water_tree
                  "mats" "water" _ eq_refl eq_refl eq_refl)).
Defined.

Lemma merge_variants_correct_witness :
  variants (merge_variants pass_a pass_b)
  = [mkVariant [("x", "1")] "glsl+essl";
     mkVariant [("x", "2")] "essl"]%string.
Proof.
  destruct (merge_variants_correct pass_a pass_b)
    as (_ & _ & _ & _ & _ & H).
  exact (H merge_flags _ _ _ eq_refl eq_refl).
Defined.

Lemma sort_variants_idempotent_witness :
  sort_variants (sort_variants shuffled) = sort_variants shuffled
  /\ default_variant (sort_variants shuffled)
     = [("a", "0"); ("b", "1")]%string
  /\ variants (sort_variants shuffled)
     = [mkVariant [("x", "1")] "first";
        mkVariant [("x", "2"); ("y", "1")] "second"]%string.
Proof.
  split; [|split; reflexivity].
  apply (sort_variants_idempotent shuffled).
  - apply wf_decide. reflexivity.
  - constructor; [apply wf_decide; reflexivity|].
    constructor; [apply wf_decide; reflexivity|]. constructor.
Defined.

Lemma get_flag_definitions_complete_witness :
  Dict.wf (default_variant terrain)
  /\ get_flag_definitions terrain
     = [("a", {["0"; "1"]}); ("b", {["2"]})]%string.
Proof.
  assert (Hwf : Dict.wf (default_variant terrain))
    by (apply wf_decide; reflexivity).
  split; [exact Hwf|].
  destruct (get_flag_definitions_complete terrain Hwf) as (_ & _ & _ & H).
  exact (H _ eq_refl eq_refl).
Defined.

End Examples.

(** ** Further properties of the binary codec *)
Section CodecBounds.
Context {BlendMode SupportedPlatforms Body : Type}.
Context `{BM : BlendModeTable BlendMode}.
Context `{SP : PlatformSet SupportedPlatforms}.
Context `{VO : VariantOps Body}.

#[local] Arguments enc_ushort : simpl never.
#[local] Arguments enc_string : simpl never.
#[local] Arguments enc_items : simpl never.

#[local] Abbreviation Pass := (Pass BlendMode SupportedPlatforms Body).
#[local] Abbreviation fold_set :=
  (fold_left (fun d kv => Dict.set (fst kv) (snd kv) d)).

Lemma length_enc_ushort n : length (enc_ushort n) = 2%nat.
Proof. reflexivity. Qed.

Lemma length_enc_string s : Z.of_nat (length (enc_string s)) = 2 + blen s.
Proof.
  unfold enc_string. rewrite length_app, length_enc_ushort.
  unfold blen. lia.
Qed.

Lemma enc_string_inj s1 s2 r1 r2 :
  blen s1 <= 65535 -> blen s2 <= 65535 ->
  enc_string s1 ++ r1 = enc_string s2 ++ r2 -> s1 = s2 /\ r1 = r2.
Proof.
  intros H1 H2 E.
  pose proof (read_enc_string s1 r1 H1) as R1.
  pose proof (read_enc_string s2 r2 H2) as R2.
  rewrite E, R2 in R1. injection R1 as -> ->. auto.
Qed.

Lemma enc_ushort_inj n1 n2 r1 r2 :
  0 <= n1 <= 65535 -> 0 <= n2 <= 65535 ->
  enc_ushort n1 ++ r1 = enc_ushort n2 ++ r2 -> n1 = n2 /\ r1 = r2.
Proof.
  intros H1 H2 E.
  pose proof (read_enc_ushort n1 r1 H1) as R1.
  pose proof (read_enc_ushort n2 r2 H2) as R2.
  rewrite E, R2 in R1. injection R1 as -> ->. auto.
Qed.

Lemma enc_items_inj (d1 d2 : dict string) r1 r2 :
  length d1 = length d2 ->
  Forall short_item d1 -> Forall short_item d2 ->
  enc_items d1 ++ r1 = enc_items d2 ++ r2 -> d1 = d2 /\ r1 = r2.
Proof.
  revert d2. induction d1 as [|[k1 v1] d1 IH]; intros [|[k2 v2] d2];
    try discriminate; intros Hlen Hs1 Hs2 E.
  - auto.
  - injection Hlen as Hlen.
    apply Forall_cons in Hs1 as [[Hk1 Hv1] Hs1].
    apply Forall_cons in Hs2 as [[Hk2 Hv2] Hs2].
    cbn [fst snd] in *.
    rewrite !enc_items_cons, <- !app_assoc in E.
    apply enc_string_inj in E as [-> E]; [|assumption..].
    apply enc_string_inj in E as [-> E]; [|assumption..].
    destruct (IH d2 Hlen Hs1 Hs2 E) as [-> ->]. auto.
Qed.

Lemma get_app {V} k (d1 d2 : dict V) :
  Dict.get k (d1 ++ d2)
  = match Dict.get k d1 with Some v => Some v | None => Dict.get k d2 end.
Proof.
  induction d1 as [|[k0 v0] d1 IH]; [reflexivity|].
  cbn [app Dict.get]. destruct (String.eqb k k0); [reflexivity | exact IH].
Qed.

Lemma get_fold_set {V} k (l : list (string * V)) (d : dict V) :
  Dict.get k (fold_set l d)
  = match last_value k l with Some v => Some v | None => Dict.get k d end.
Proof.
  unfold last_value. revert d.
  induction l as [|[k0 v0] l IH]; intros d; [reflexivity|].
  cbn [fold_left fst snd rev]. rewrite IH, get_app, get_set.
  destruct (Dict.get k (rev l)); [reflexivity|].
  cbn [Dict.get]. destruct (String.eqb k k0); reflexivity.
Qed.

Lemma length_set {V} k (v : V) (d : dict V) :
  (length (Dict.set k v d) <= S (length d))%nat.
Proof.
  induction d as [|[k0 v0] d IH]; cbn [Dict.set length]; [lia|].
  destruct (String.eqb k k0); cbn [length]; lia.
Qed.

Lemma length_fold_set {V} (l : list (string * V)) (d : dict V) :
  (length (fold_set l d) <= length d + length l)%nat.
Proof.
  revert d. induction l as [|[k0 v0] l IH]; intros d; cbn [fold_left length].
  - lia.
  - pose proof (IH (Dict.set k0 v0 d)). pose proof (length_set k0 v0 d).
    cbn [fst snd]. lia.
Qed.

Lemma filter_always {A} (P : A -> Prop) `{!forall x, Decision (P x)}
    (l : list A) :
  (forall x, P x) -> filter P l = l.
Proof.
  intros HP. induction l as [|x l IH]; [reflexivity|].
  rewrite filter_cons_True by apply HP. rewrite IH. reflexivity.
Qed.

Lemma keys_fold_set {V} (l : list (string * V)) (d : dict V) :
  Dict.keys (fold_set l d)
  = Dict.keys d
    ++ filter (fun k => k ∉ Dict.keys d) (first_keys (Dict.keys l)).
Proof.
  revert d. induction l as [|[k v] l IH]; intros d.
  - cbn. rewrite app_nil_r. reflexivity.
  - cbn [fold_left fst snd]. rewrite IH, keys_set. unfold Dict.mem.
    change (Dict.keys ((k, v) :: l)) with (k :: Dict.keys l).
    cbn [first_keys].
    destruct (Dict.get k d) as [v0|] eqn:E.
    + assert (Hin : k ∈ Dict.keys d) by (apply keys_get_Some; eauto).
      rewrite filter_cons_False by (intros Hn; exact (Hn Hin)).
      rewrite list_filter_filter. f_equal.
      apply list_filter_iff. intros x. split; [|tauto].
      intros Hx. split; [exact Hx|]. intros ->. exact (Hx Hin).
    + apply get_None_keys in E.
      rewrite filter_cons_True by exact E.
      rewrite list_filter_filter, <- app_assoc. cbn [app]. do 2 f_equal.
      apply list_filter_iff. intros x.
      rewrite not_elem_of_app, list_elem_of_singleton. tauto.
Qed.

(** X2. Two passes without a default blend mode written one after the
    other are read back one after the other: the first [Pass().read] stops
    where the second record starts, and both results write the same bytes
    again. *)
Theorem read_two_records (p1 p2 : Pass) b1 b2 :
  SupportedPlatforms_codec_faithful ->
  Variant_codec_faithful ->
  default_blend_mode p1 = Unspecified ->
  default_blend_mode p2 = Unspecified ->
  Dict.wf (default_variant p1) ->
  Dict.wf (default_variant p2) ->
  write p1 = Ok b1 ->
  write p2 = Ok b2 ->
  exists p1' p2',
    read Pass_init (b1 ++ b2) = Ok (p1', b2)
    /\ read Pass_init b2 = Ok (p2', [])
    /\ write p1' = Ok b1 /\ write p2' = Ok b2.
Proof.
  intros Hsp Hvar Hm1 Hm2 Hwf1 Hwf2 Hw1 Hw2.
  destruct (read_write_sentinel Pass_init p1 b1 b2 Hsp Hvar eq_refl Hm1 Hwf1 Hw1)
    as (p1' & Hr1 & Hw1' & _).
  destruct (read_write_sentinel Pass_init p2 b2 [] Hsp Hvar eq_refl Hm2 Hwf2 Hw2)
    as (p2' & Hr2 & Hw2' & _).
  rewrite app_nil_r in Hr2. eauto 10.
Qed.

(** X3. A stream [read] accepts holds at least the eleven bytes of the fixed
    fields and the bytes of the two strings [name] and [fallback_pass]. *)
Theorem read_needs_fixed_fields (self p : Pass) file rest :
  read self file = Ok (p, rest) ->
  11 + blen (name p) + blen (fallback_pass p) <= Z.of_nat (length file).
Proof.
  intros H. apply read_layout_sound in H
    as (bits & flag & code & kvs & f_vs & -> & _).
  rewrite !length_app, !Nat2Z.inj_add, !length_enc_string.
  rewrite !length_enc_ushort. cbn [length].
  assert (0 <= blen bits) by (unfold blen; lia). lia.
Qed.

(** X4. The loop of [read] over the key/value pairs builds a dictionary with
    distinct keys: its keys are the keys of the stream in the order of
    their first occurrence, so a key that occurs again keeps its first
    position, and it takes the later value; the dictionary may hold fewer
    entries than the count announced. After any [read], [default_variant]
    has distinct keys. *)
Theorem read_default_variant_last_wins :
  (forall (kvs : list (string * string)) rest,
      Forall short_item kvs ->
      exists dv,
        read_default_variant (length kvs) (enc_items kvs ++ rest) []
        = Ok (dv, rest)
        /\ Dict.wf dv
        /\ Dict.keys dv = first_keys (Dict.keys kvs)
        /\ (length dv <= length kvs)%nat
        /\ forall k, Dict.get k dv = last_value k kvs)
  /\ (forall (self p : Pass) file rest,
         read self file = Ok (p, rest) -> Dict.wf (default_variant p)).
Proof.
  split.
  - intros kvs rest Hs. eexists. split; [|split; [|split; [|split]]].
    + apply read_default_variant_enc, Hs.
    + apply fold_set_wf, NoDup_nil_2.
    + rewrite keys_fold_set. cbn [Dict.keys fmap list_fmap app].
      apply filter_always. intros x. apply not_elem_of_nil.
    + pose proof (length_fold_set kvs ([] : dict string)) as H.
      cbn [length] in H. lia.
    + intros k. rewrite get_fold_set. destruct (last_value k kvs); reflexivity.
  - intros self p file rest H. eapply read_wf, H.
Qed.

(** X5. The bytes [write] emits determine the pass-level fields: two passes
    with the same bytes have the same name, platform bit string, fallback
    pass and default variant (with its order), both or neither specify a
    blend mode, with the same code, and their variants are as many and
    wrote the same bytes. *)
Theorem write_injective (p1 p2 : Pass) b :
  write p1 = Ok b ->
  write p2 = Ok b ->
  name p1 = name p2
  /\ get_bit_string (supported_platforms p1)
     = get_bit_string (supported_platforms p2)
  /\ fallback_pass p1 = fallback_pass p2
  /\ mode_specified (default_blend_mode p1)
     = mode_specified (default_blend_mode p2)
  /\ (mode_specified (default_blend_mode p1) = true ->
      BlendMode_value (default_blend_mode p1)
      = BlendMode_value (default_blend_mode p2))
  /\ default_variant p1 = default_variant p2
  /\ length (variants p1) = length (variants p2)
  /\ write_variants (variants p1) = write_variants (variants p2).
Proof.
  intros H1 H2.
  apply write_layout in H1
    as (v1 & Hv1 & -> & Hn1 & Hb1 & Hf1 & Hm1 & Hk1 & Hs1 & Hc1).
  apply write_layout in H2
    as (v2 & Hv2 & E & Hn2 & Hb2 & Hf2 & Hm2 & Hk2 & Hs2 & Hc2).
  apply enc_string_inj in E as [En E]; [|assumption..].
  apply enc_string_inj in E as [Eb E]; [|assumption..].
  apply enc_string_inj in E as [Ef E]; [|assumption..].
  assert (Hmode : mode_specified (default_blend_mode p1)
                  = mode_specified (default_blend_mode p2)
                  /\ (mode_specified (default_blend_mode p1) = true ->
                      BlendMode_value (default_blend_mode p1)
                      = BlendMode_value (default_blend_mode p2))
                  /\ enc_ushort (Z.of_nat (length (default_variant p1)))
                     ++ enc_items (default_variant p1)
                     ++ enc_ushort (Z.of_nat (length (variants p1))) ++ v1
                     = enc_ushort (Z.of_nat (length (default_variant p2)))
                       ++ enc_items (default_variant p2)
                       ++ enc_ushort (Z.of_nat (length (variants p2))) ++ v2).
  { destruct (mode_specified (default_blend_mode p1));
      destruct (mode_specified (default_blend_mode p2));
      try (cbn [write_bool app] in E; discriminate).
    - apply app_inv_head in E.
      apply enc_ushort_inj in E as [Ev E]; [auto | auto..].
    - apply app_inv_head in E.
      split; [reflexivity|]. split; [discriminate | exact E]. }
  destruct Hmode as (Hspec & Hval & E').
  apply enc_ushort_inj in E' as [Elen E']; [|lia..].
  apply Nat2Z.inj in Elen.
  apply enc_items_inj in E' as [Edv E']; [|assumption..].
  apply enc_ushort_inj in E' as [Evl E']; [|lia..].
  apply Nat2Z.inj in Evl. subst v2.
  rewrite Hv1, Hv2. auto 10.
Qed.

End CodecBounds.

(** ** Further properties of the descriptor codec *)
Section TreeRoundTrip.
Context {BlendMode SupportedPlatforms Body : Type}.
Context `{BM : BlendModeTable BlendMode}.
Context `{SP : PlatformSet SupportedPlatforms}.
Context `{VO : VariantOps Body}.
Context `{PL : PyLib}.

#[local] Abbreviation Pass := (Pass BlendMode SupportedPlatforms Body).

Lemma as_str_dict_of_strings (d : dict string) :
  as_str_dict (JObj (map (fun kv => (fst kv, JStr (snd kv))) d)) = Ok d.
Proof.
  cbn [as_str_dict].
  induction d as [|[k v] d IH]; [reflexivity|].
  cbn [map traverse fst snd as_str]. mstep. rewrite IH. reflexivity.
Qed.

Lemma traverse_length {A B} (f : A -> result B) l ys :
  traverse f l = Ok ys -> length ys = length l.
Proof.
  revert ys. induction l as [|x l IH]; intros ys H; cbn [traverse] in H.
  - injection H as <-. reflexivity.
  - bind_inv H as y Hy. bind_inv H as ys' Hys. injection H as <-.
    cbn [length]. f_equal. apply IH, Hys.
Qed.

Lemma serialize_properties_get (p : Pass) :
  Dict.get "name" (serialize_properties p) = Some (JStr (name p))
  /\ Dict.get "supported_platforms" (serialize_properties p)
     = Some (SupportedPlatforms_serialize (supported_platforms p))
  /\ Dict.get "fallback_pass" (serialize_properties p)
     = Some (JStr (fallback_pass p))
  /\ Dict.get "default_blend_mode" (serialize_properties p)
     = Some (JStr (if mode_specified (default_blend_mode p)
                   then BlendMode_name (default_blend_mode p)
                   else ""%string))
  /\ Dict.get "default_variant" (serialize_properties p)
     = Some (JObj (map (fun kv => (fst kv, JStr (snd kv)))
                       (default_variant p)))
  /\ Dict.get "variants" (serialize_properties p)
     = Some (JArr (imap (fun i v => Variant_serialize_properties v i)
                        (variants p))).
Proof. repeat split; reflexivity. Qed.

(** X6. Loading what [serialize_properties] produced for a pass [p], into
    any pass: when [p] has no default blend mode the load returns the name,
    the fallback pass and the default variant of [p] and the sentinel, with
    the platform set loaded from the serialized platforms and the variants
    loaded in order from the serialized variants, under the path joined
    from [path] and the name of [p]. When [p] has a default blend mode the
    tree holds the member's name, the call of the enumeration looks it up
    by value, and the load raises. *)
Theorem load_serialize_properties (self p : Pass) path sp :
  SupportedPlatforms_load (supported_platforms self)
    (SupportedPlatforms_serialize (supported_platforms p)) = Ok sp ->
  (forall vs,
      default_blend_mode p = Unspecified ->
      traverse (fun variant =>
                  Variant_load variant (os_path_join path (name p)))
               (imap (fun i v => Variant_serialize_properties v i)
                     (variants p))
      = Ok vs ->
      load self (serialize_properties p) path
      = Ok {| name := name p; supported_platforms := sp;
              fallback_pass := fallback_pass p;
              default_blend_mode := Unspecified;
              default_variant := default_variant p; variants := vs |})
  /\ (BlendMode_call_by_value ->
      default_blend_mode p <> Unspecified ->
      BlendMode_name (default_blend_mode p) <> ""%string ->
      load self (serialize_properties p) path = Err UnknownBlendModeError).
Proof.
  intros Hsp.
  destruct (serialize_properties_get p) as (G1 & G2 & G3 & G4 & G5 & G6).
  split.
  - intros vs Hmode Hvs. apply load_Ok.
    cbn [name supported_platforms fallback_pass default_blend_mode
         default_variant variants].
    rewrite G1, G2, G3, G4, G5, G6.
    cbn [as_str default from_option id]. rewrite as_str_dict_of_strings.
    unfold mode_specified.
    destruct (decide (default_blend_mode p = Unspecified)); [|contradiction].
    cbn [truthy String.eqb negb]. auto 10.
  - intros Hval Hmode Hname. unfold load.
    rewrite G1, G2, G3, G4. cbn [as_str default from_option id]. mstep.
    rewrite Hsp. mstep.
    unfold mode_specified.
    destruct (decide (default_blend_mode p = Unspecified)); [contradiction|].
    cbn [truthy].
    destruct (String.eqb_spec (BlendMode_name (default_blend_mode p)) "");
      [contradiction|].
    cbn [negb].
    destruct (BlendMode_call (JStr (BlendMode_name (default_blend_mode p))))
      as [m|] eqn:E; [|reflexivity].
    apply Hval in E. discriminate.
Qed.

(** X7. A [default_blend_mode] that is JSON [null] is treated like an absent
    key: the blend mode stays. Any other value that Python counts as false
    (the empty string, 0, [false], an empty array or object) resets it to
    the sentinel. *)
Theorem load_blend_mode_null_or_falsy (self p' : Pass) (object : dict json)
    path :
  load self object path = Ok p' ->
  (Dict.get "default_blend_mode" object = Some JNull ->
   default_blend_mode p' = default_blend_mode self)
  /\ (forall j, Dict.get "default_blend_mode" object = Some j ->
        j <> JNull -> truthy j = false ->
        default_blend_mode p' = Unspecified).
Proof.
  intros H. apply load_Ok in H as (_ & _ & _ & Hm & _). split.
  - intros E. rewrite E in Hm. cbn in Hm. congruence.
  - intros j E Hnull Hfalse. rewrite E in Hm. cbn [default from_option id] in Hm.
    destruct j; try contradiction; rewrite Hfalse in Hm; congruence.
Qed.

(** X8. A [variants] array in the tree replaces the list of the pass: the new
    list has one variant per element of the array, whatever the pass held,
    and an empty array leaves the pass without variants. *)
Theorem load_replaces_variants (self p' : Pass) (object : dict json) path l :
  load self object path = Ok p' ->
  Dict.get "variants" object = Some (JArr l) ->
  length (variants p') = length l /\ (l = [] -> variants p' = []).
Proof.
  intros H E. apply load_Ok in H as (_ & _ & _ & _ & _ & Hv).
  rewrite E in Hv. apply traverse_length in Hv.
  split; [exact Hv|]. intros ->. destruct (variants p'); [reflexivity|].
  discriminate.
Qed.

(** X9. Loading the same tree again changes nothing, provided loading its
    platforms again into the platform set changes nothing. *)
Theorem load_again (self p1 : Pass) (object : dict json) path :
  load self object path = Ok p1 ->
  SupportedPlatforms_load (supported_platforms p1)
    (default (JObj []) (Dict.get "supported_platforms" object))
  = Ok (supported_platforms p1) ->
  load p1 object path = Ok p1.
Proof.
  intros H Hsp. apply load_Ok in H as (Hn & _ & Hf & Hm & Hd & Hv).
  apply load_Ok. split; [|split; [|split; [|split; [|split]]]].
  - destruct (Dict.get "name" object); [exact Hn | reflexivity].
  - exact Hsp.
  - destruct (Dict.get "fallback_pass" object); [exact Hf | reflexivity].
  - destruct (default JNull (Dict.get "default_blend_mode" object));
      solve [exact Hm | reflexivity].
  - destruct (Dict.get "default_variant" object); [exact Hd | reflexivity].
  - destruct (Dict.get "variants" object) as [[]|];
      solve [exact Hv | reflexivity].
Qed.

End TreeRoundTrip.

(** ** Further properties of merging *)
Section MergeInvariants.
Context {BlendMode SupportedPlatforms Body : Type}.
Context `{VO : VariantOps Body}.

#[local] Abbreviation Pass := (Pass BlendMode SupportedPlatforms Body).
Implicit Types (vs os : list (Variant Body)) (o v w : Variant Body).

Lemma flags_match_refl o : Dict.wf (flags o) -> flags_match o o.
Proof.
  intros Hwf. apply flags_eqb_same_bindings; [exact Hwf..|]. reflexivity.
Qed.

(** Whether a variant of the list matches depends on the flags in the
    list only. *)
Lemma has_match_flags o vs vs' :
  flags <$> vs = flags <$> vs' ->
  Exists (flags_match o) vs -> Exists (flags_match o) vs'.
Proof.
  intros E H.
  assert (Hf : forall l : list (Variant Body),
            Exists (flags_match o) l
            <-> Exists (fun d => Dict.eqb String.eqb d (flags o) = true)
                       (flags <$> l)).
  { intros l. rewrite Exists_fmap. reflexivity. }
  apply Hf. rewrite <- E. apply Hf, H.
Qed.

Lemma flags_distinct_flags vs vs' :
  flags <$> vs = flags <$> vs' -> flags_distinct vs -> flags_distinct vs'.
Proof.
  intros E H i j v w Hij Hi Hj.
  assert (Hi' : (flags <$> vs) !! i = Some (flags v))
    by (rewrite E, list_lookup_fmap, Hi; reflexivity).
  assert (Hj' : (flags <$> vs) !! j = Some (flags w))
    by (rewrite E, list_lookup_fmap, Hj; reflexivity).
  rewrite list_lookup_fmap in Hi', Hj'.
  destruct (vs !! i) as [v0|] eqn:Ei; [|discriminate].
  destruct (vs !! j) as [w0|] eqn:Ej; [|discriminate].
  injection Hi' as Hi'. injection Hj' as Hj'.
  pose proof (H i j v0 w0 Hij Ei Ej) as Hno.
  unfold flags_match in *. rewrite <- Hi', <- Hj'. exact Hno.
Qed.

Lemma merge_into_flags vs o :
  merge_keeps_flags ->
  (Exists (flags_match o) vs
   /\ flags <$> merge_into vs o = flags <$> vs)
  \/ (Forall (fun v => ~ flags_match o v) vs
      /\ merge_into vs o = vs ++ [o]).
Proof.
  intros Hkeep. unfold merge_into.
  destruct (list_find (flags_match o) vs) as [[i v]|] eqn:E.
  - apply list_find_Some in E as (Hi & Hm & _). left. split.
    + apply Exists_exists. exists v. split; [|exact Hm].
      eapply list_elem_of_lookup_2, Hi.
    + rewrite list_fmap_insert, Hkeep.
      apply list_insert_id. rewrite list_lookup_fmap, Hi. reflexivity.
  - apply list_find_None in E. right. auto.
Qed.

Lemma merge_into_length vs o :
  (length vs <= length (merge_into vs o) <= S (length vs))%nat.
Proof.
  destruct (merge_into_cases vs o) as [(i & v & _ & _ & ->)| ->].
  - rewrite length_insert. lia.
  - rewrite length_app. cbn. lia.
Qed.

Lemma merge_fold_length os vs :
  (length vs <= length (fold_left merge_into os vs)
   <= length vs + length os)%nat.
Proof.
  revert vs. induction os as [|o os IH]; intros vs; cbn [fold_left length].
  - lia.
  - pose proof (IH (merge_into vs o)). pose proof (merge_into_length vs o).
    lia.
Qed.

(** X10. [merge_variants] never drops a variant of [self] and adds at most one
    per variant of [other]. *)
Theorem merge_variants_length (self other : Pass) :
  (length (variants self)
   <= length (variants (merge_variants self other))
   <= length (variants self) + length (variants other))%nat.
Proof. rewrite variants_merge_variants. apply merge_fold_length. Qed.

Lemma merge_into_distinct vs o :
  merge_keeps_flags -> flags_distinct vs -> flags_distinct (merge_into vs o).
Proof.
  intros Hkeep Hd.
  destruct (merge_into_flags vs o Hkeep) as [[_ E]|[Hnone E]].
  - eapply flags_distinct_flags; [symmetry; exact E | exact Hd].
  - rewrite E. intros i j v w Hij Hi Hj.
    assert (Hilt : (i < length vs)%nat).
    { apply lookup_lt_Some in Hj. rewrite length_app in Hj. cbn in Hj. lia. }
    rewrite lookup_app_l in Hi by exact Hilt.
    destruct (decide (j < length vs)%nat) as [Hjlt|Hjge].
    + rewrite lookup_app_l in Hj by exact Hjlt. exact (Hd i j v w Hij Hi Hj).
    + rewrite lookup_app_r in Hj by lia.
      destruct (j - length vs)%nat; [|discriminate].
      injection Hj as <-. rewrite Forall_forall in Hnone.
      apply Hnone. eapply list_elem_of_lookup_2, Hi.
Qed.

(** X11. When no variant of [self] has the flags of an earlier one, the same
    holds after [merge_variants], provided merging keeps the flags of the
    variant merged into. *)
Theorem merge_variants_keeps_distinct (self other : Pass) :
  merge_keeps_flags ->
  flags_distinct (variants self) ->
  flags_distinct (variants (merge_variants self other)).
Proof.
  intros Hkeep. rewrite variants_merge_variants.
  generalize (variants self) as vs. generalize (variants other) as os.
  induction os as [|o os IH]; intros vs Hd; cbn [fold_left]; [exact Hd|].
  apply IH, merge_into_distinct; assumption.
Qed.

Lemma merge_fold_has_match os vs o :
  merge_keeps_flags ->
  Exists (flags_match o) vs ->
  Exists (flags_match o) (fold_left merge_into os vs).
Proof.
  intros Hkeep. revert vs.
  induction os as [|o' os IH]; intros vs H; cbn [fold_left]; [exact H|].
  apply IH.
  destruct (merge_into_flags vs o' Hkeep) as [[_ E]|[_ E]].
  - eapply has_match_flags; [symmetry; exact E | exact H].
  - rewrite E. apply Exists_app. left. exact H.
Qed.

Lemma merge_fold_covers os vs o :
  merge_keeps_flags ->
  o ∈ os -> Dict.wf (flags o) ->
  Exists (flags_match o) (fold_left merge_into os vs).
Proof.
  intros Hkeep Hin Hwf. revert vs.
  induction os as [|o' os IH]; intros vs; [apply elem_of_nil in Hin as []|].
  cbn [fold_left]. apply elem_of_cons in Hin as [->|Hin]; [|apply IH, Hin].
  apply merge_fold_has_match; [exact Hkeep|].
  destruct (merge_into_flags vs o' Hkeep) as [[H E]|[_ E]].
  - eapply has_match_flags; [symmetry; exact E | exact H].
  - rewrite E. apply Exists_app. right. constructor.
    apply flags_match_refl, Hwf.
Qed.

(** X12. After [merge_variants] every variant of [other] finds a variant of
    [self] with equal flags, provided merging keeps the flags of the variant
    merged into and the flags of the variant have distinct keys. *)
Theorem merge_variants_covers (self other : Pass) o :
  merge_keeps_flags ->
  o ∈ variants other ->
  Dict.wf (flags o) ->
  exists v, v ∈ variants (merge_variants self other) /\ flags_match o v.
Proof.
  intros Hkeep Hin Hwf. rewrite variants_merge_variants.
  apply Exists_exists. apply merge_fold_covers; assumption.
Qed.

Lemma merge_fold_all_matched os vs :
  merge_keeps_flags ->
  Forall (fun o => Exists (flags_match o) vs) os ->
  flags <$> fold_left merge_into os vs = flags <$> vs.
Proof.
  intros Hkeep. revert vs.
  induction os as [|o os IH]; intros vs H; cbn [fold_left]; [reflexivity|].
  apply Forall_cons in H as [Ho H].
  destruct (merge_into_flags vs o Hkeep) as [[_ E]|[Hnone _]].
  - rewrite IH, E; [reflexivity|].
    eapply Forall_impl; [exact H|]. intros o' Ho'.
    eapply has_match_flags; [symmetry; exact E | exact Ho'].
  - apply Exists_exists in Ho as (v & Hv & Hm).
    rewrite Forall_forall in Hnone. destruct (Hnone v Hv Hm).
Qed.

(** X13. When every variant of [other] finds a variant of [self] with equal
    flags, [merge_variants] appends nothing: the list keeps its length and
    the flags at every position (merging keeping the flags of the variant
    merged into). *)
Theorem merge_variants_all_matched (self other : Pass) :
  merge_keeps_flags ->
  Forall (fun o => Exists (flags_match o) (variants self)) (variants other) ->
  flags <$> variants (merge_variants self other) = flags <$> variants self
  /\ length (variants (merge_variants self other)) = length (variants self).
Proof.
  intros Hkeep Hall. rewrite variants_merge_variants.
  pose proof (merge_fold_all_matched _ _ Hkeep Hall) as E.
  split; [exact E|].
  apply (f_equal length) in E. rewrite !length_fmap in E. exact E.
Qed.

Lemma merge_fold_distinct_appends os vs :
  flags_distinct (vs ++ os) -> fold_left merge_into os vs = vs ++ os.
Proof.
  revert vs. induction os as [|o os IH]; intros vs Hd; cbn [fold_left].
  - rewrite app_nil_r. reflexivity.
  - rewrite merge_into_no_match.
    + rewrite IH; rewrite <- app_assoc; [reflexivity | exact Hd].
    + intros v Hv. apply list_elem_of_lookup in Hv as (i & Hi).
      apply (Hd i (length vs) v o).
      * eapply lookup_lt_Some, Hi.
      * rewrite lookup_app_l by (eapply lookup_lt_Some, Hi). exact Hi.
      * rewrite lookup_app_r by lia. rewrite Nat.sub_diag. reflexivity.
Qed.

(** X14. Merging into a pass without variants a pass in which no variant has
    the flags of an earlier one copies its variants, in order and
    unchanged. *)
Theorem merge_variants_into_empty (self other : Pass) :
  variants self = [] ->
  flags_distinct (variants other) ->
  variants (merge_variants self other) = variants other.
Proof.
  intros E Hd. rewrite variants_merge_variants, E.
  apply (merge_fold_distinct_appends (variants other) []). exact Hd.
Qed.

End MergeInvariants.

(** ** Further properties of sorting *)
Lemma get_Permutation {V} k (d1 d2 : dict V) :
  Dict.wf d1 -> d1 ≡ₚ d2 -> Dict.get k d1 = Dict.get k d2.
Proof.
  intros Hwf1 Hp.
  assert (Hwf2 : Dict.wf d2).
  { unfold Dict.wf, Dict.keys in *. rewrite <- Hp. exact Hwf1. }
  destruct (Dict.get k d1) as [v|] eqn:E.
  - symmetry. apply In_get_wf; [exact Hwf2|].
    rewrite <- Hp. apply get_Some_In, E.
  - symmetry. apply get_None_keys. apply get_None_keys in E.
    unfold Dict.keys in *. rewrite <- Hp. exact E.
Qed.

Lemma sort_items_Permutation (d : dict string) :
  Dict.wf d -> sort_items d ≡ₚ d.
Proof.
  intros Hwf. rewrite (sort_items_sorted d Hwf). apply sorted_Permutation.
Qed.

Lemma sort_items_StronglySorted (d : dict string) :
  Dict.wf d -> StronglySorted key_le (sort_items d).
Proof.
  intros Hwf. rewrite (sort_items_sorted d Hwf).
  apply Sorted_StronglySorted; [apply key_le_trans|].
  apply (Sorted_weaken (in_order item_ltb)).
  - apply item_in_order_key_le.
  - apply sorted_Sorted, item_ltb_asym.
Qed.

Lemma sort_items_canonical (d1 d2 : dict string) :
  Dict.wf d1 -> d1 ≡ₚ d2 -> sort_items d1 = sort_items d2.
Proof.
  intros Hwf1 Hp.
  assert (Hwf2 : Dict.wf d2).
  { unfold Dict.wf, Dict.keys in *. rewrite <- Hp. exact Hwf1. }
  apply (sorting.StronglySorted_unique_strong key_le).
  - intros [k1 v1] [k2 v2] H1 H2 Hle1 Hle2. unfold key_le in *. cbn in *.
    assert (k1 = k2) as -> by (apply String.leb_antisym; assumption).
    rewrite (sort_items_Permutation d1 Hwf1) in H1.
    rewrite (sort_items_Permutation d2 Hwf2), <- Hp in H2.
    pose proof (In_get_wf _ _ _ Hwf1 H1) as G1.
    pose proof (In_get_wf _ _ _ Hwf1 H2) as G2.
    congruence.
  - apply sort_items_StronglySorted, Hwf1.
  - apply sort_items_StronglySorted, Hwf2.
  - rewrite (sort_items_Permutation d1 Hwf1), (sort_items_Permutation d2 Hwf2).
    exact Hp.
Qed.

Section SortCanonical.
Context {BlendMode SupportedPlatforms Body : Type}.
Context `{PL : PyLib}.

#[local] Abbreviation Pass := (Pass BlendMode SupportedPlatforms Body).

(** X15. [sort_variants] brings dictionaries that hold the same items in a
    different order to one form: two passes whose [default_variant] are
    permutations of each other have the same [default_variant] afterwards,
    and two variants whose flags are permutations of each other get the
    same flags. *)
Theorem sort_variants_canonical (p q : Pass) :
  (Dict.wf (default_variant p) ->
   default_variant p ≡ₚ default_variant q ->
   default_variant (sort_variants p) = default_variant (sort_variants q))
  /\ (forall v w : Variant Body,
        Dict.wf (flags v) -> flags v ≡ₚ flags w ->
        flags (sort_flags v) = flags (sort_flags w)).
Proof.
  split.
  - intros Hwf Hp. apply sort_items_canonical; assumption.
  - intros v w Hwf Hp. apply sort_items_canonical; assumption.
Qed.

(** X16. Sorting the flags of two variants does not change whether they match
    in [merge_variants]. *)
Theorem sort_flags_keeps_match (o v : Variant Body) :
  Dict.wf (flags o) -> Dict.wf (flags v) ->
  flags_match (sort_flags o) (sort_flags v) <-> flags_match o v.
Proof.
  intros Ho Hv.
  assert (Hso : Dict.wf (sort_items (flags o))).
  { unfold Dict.wf, Dict.keys. rewrite (sort_items_Permutation _ Ho). exact Ho. }
  assert (Hsv : Dict.wf (sort_items (flags v))).
  { unfold Dict.wf, Dict.keys. rewrite (sort_items_Permutation _ Hv). exact Hv. }
  unfold flags_match, sort_flags. cbn [flags].
  rewrite (flags_eqb_same_bindings _ _ Hsv Hso).
  rewrite (flags_eqb_same_bindings _ _ Hv Ho).
  split; intros H k; specialize (H k).
  - rewrite <- (get_Permutation k _ _ Hsv (sort_items_Permutation _ Hv)).
    rewrite <- (get_Permutation k _ _ Hso (sort_items_Permutation _ Ho)).
    exact H.
  - rewrite (get_Permutation k _ _ Hsv (sort_items_Permutation _ Hv)).
    rewrite (get_Permutation k _ _ Hso (sort_items_Permutation _ Ho)).
    exact H.
Qed.

Lemma takes_value_definitions (p : Pass) k v :
  Dict.wf (default_variant p) ->
  takes_value (get_flag_definitions p) k v
  <-> Dict.get k (default_variant p) = Some v
      \/ exists variant, variant ∈ variants p /\ (k, v) ∈ flags variant.
Proof.
  intros Hwf. unfold get_flag_definitions.
  rewrite (proj1 (fold_variants _ _ k)).
  unfold takes_value at 1. rewrite seed_definitions by exact Hwf.
  split; (intros [H|H]; [left | right; exact H]).
  - destruct H as (S & HS & Hv).
    destruct (Dict.get k (default_variant p)) as [v'|]; [|discriminate].
    injection HS as <-. set_solver.
  - rewrite H. eexists. split; [reflexivity | set_solver].
Qed.

(** X17. [sort_variants] does not change the flag definitions: every key takes
    the same values before and after. *)
Theorem sort_variants_keeps_definitions (p : Pass) k v :
  Dict.wf (default_variant p) ->
  Forall (fun variant => Dict.wf (flags variant)) (variants p) ->
  takes_value (get_flag_definitions (sort_variants p)) k v
  <-> takes_value (get_flag_definitions p) k v.
Proof.
  intros Hdv Hvs.
  assert (Hsdv : Dict.wf (default_variant (sort_variants p))).
  { cbn [sort_variants default_variant]. unfold Dict.wf, Dict.keys.
    rewrite (sort_items_Permutation _ Hdv). exact Hdv. }
  rewrite (takes_value_definitions _ k v Hsdv).
  rewrite (takes_value_definitions _ k v Hdv).
  cbn [sort_variants default_variant variants].
  assert (Hget : Dict.get k (sort_items (default_variant p))
                 = Dict.get k (default_variant p)).
  { apply get_Permutation; [|apply sort_items_Permutation, Hdv].
    unfold Dict.wf, Dict.keys. rewrite (sort_items_Permutation _ Hdv).
    exact Hdv. }
  rewrite Hget. rewrite Forall_forall in Hvs.
  split; (intros [H|(x & Hx & Hin)]; [left; exact H | right]).
  - rewrite (sorted_Permutation variant_ltb) in Hx.
    apply list_elem_of_fmap in Hx as (x0 & -> & Hx0).
    exists x0. split; [exact Hx0|].
    cbn [sort_flags flags] in Hin.
    rewrite (sort_items_Permutation _ (Hvs x0 Hx0)) in Hin. exact Hin.
  - exists (sort_flags x). split.
    + rewrite (sorted_Permutation variant_ltb).
      apply list_elem_of_fmap. eauto.
    + cbn [sort_flags flags].
      rewrite (sort_items_Permutation _ (Hvs x Hx)). exact Hin.
Qed.

End SortCanonical.

(** ** Platform and stage queries, broadcasts *)
Section Queries.
Context {BlendMode SupportedPlatforms Body Platform Stage : Type}.
Context `{VS : VariantSets Body Platform Stage}.

#[local] Abbreviation Pass := (Pass BlendMode SupportedPlatforms Body).

Lemma elem_of_fold_union {T} `{Countable T} (f : Variant Body -> gset T)
    (vs : list (Variant Body)) (acc : gset T) x :
  x ∈ fold_left (fun s v => s ∪ f v) vs acc
  <-> x ∈ acc \/ exists v, v ∈ vs /\ x ∈ f v.
Proof.
  revert acc. induction vs as [|a vs IH]; intros acc; cbn [fold_left].
  - split; [auto|]. intros [Hx|(v & Hv & _)]; [exact Hx|].
    apply elem_of_nil in Hv as [].
  - rewrite IH, elem_of_union. split.
    + intros [[Hx|Hx]|(v & Hv & Hx)]; [auto | right | right].
      * exists a. split; [left | exact Hx].
      * exists v. split; [right; exact Hv | exact Hx].
    + intros [Hx|(v & Hv & Hx)]; [auto|].
      apply elem_of_cons in Hv as [->|Hv]; [auto|]. right. eauto.
Qed.

(** X18. A platform is in [get_platforms] exactly when some variant of the pass
    has it; a pass without variants has none, and the order of the variants
    does not matter. *)
Theorem get_platforms_spec (p q : Pass) :
  (forall x, x ∈ get_platforms p
             <-> exists v, v ∈ variants p /\ x ∈ Variant_get_platforms v)
  /\ (variants p = [] -> get_platforms p = ∅)
  /\ (variants p ≡ₚ variants q -> get_platforms p = get_platforms q).
Proof.
  assert (Hmem : forall (r : Pass) x,
            x ∈ get_platforms r
            <-> exists v, v ∈ variants r /\ x ∈ Variant_get_platforms v).
  { intros r x. unfold get_platforms. rewrite elem_of_fold_union.
    split; [intros [Hx|Hx]; [|exact Hx] | auto].
    apply elem_of_empty in Hx as []. }
  split; [apply Hmem|]. split.
  - intros E. unfold get_platforms. rewrite E. reflexivity.
  - intros Hp. apply set_eq. intros x. rewrite !Hmem.
    split; intros (v & Hv & Hx); exists v; split; auto.
    + rewrite <- Hp. exact Hv.
    + rewrite Hp. exact Hv.
Qed.

(** X19. A stage is in [get_stages] exactly when some variant of the pass has
    it; a pass without variants has none, and the order of the variants does
    not matter. *)
Theorem get_stages_spec (p q : Pass) :
  (forall x, x ∈ get_stages p
             <-> exists v, v ∈ variants p /\ x ∈ Variant_get_stages v)
  /\ (variants p = [] -> get_stages p = ∅)
  /\ (variants p ≡ₚ variants q -> get_stages p = get_stages q).
Proof.
  assert (Hmem : forall (r : Pass) x,
            x ∈ get_stages r
            <-> exists v, v ∈ variants r /\ x ∈ Variant_get_stages v).
  { intros r x. unfold get_stages. rewrite elem_of_fold_union.
    split; [intros [Hx|Hx]; [|exact Hx] | auto].
    apply elem_of_empty in Hx as []. }
  split; [apply Hmem|]. split.
  - intros E. unfold get_stages. rewrite E. reflexivity.
  - intros Hp. apply set_eq. intros x. rewrite !Hmem.
    split; intros (v & Hv & Hx); exists v; split; auto.
    + rewrite <- Hp. exact Hv.
    + rewrite Hp. exact Hv.
Qed.

Lemma elem_of_get_platforms (r : Pass) x :
  x ∈ get_platforms r
  <-> exists v, v ∈ variants r /\ x ∈ Variant_get_platforms v.
Proof.
  unfold get_platforms. rewrite elem_of_fold_union.
  split; [intros [Hx|Hx]; [|exact Hx] | auto].
  apply elem_of_empty in Hx as [].
Qed.

(** X20. Provided a variant's platform set grows and shrinks as its own
    [add_platforms] and [remove_platforms] say: [remove_platforms] takes the
    platforms out of [get_platforms]; [add_platforms] adds them when the
    pass has a variant, and on a pass without variants it changes nothing,
    so the platforms are not recorded. *)
Theorem add_remove_platforms_spec (p : Pass) (ps : gset Platform) :
  Variant_platforms_law ->
  get_platforms (remove_platforms p ps) = get_platforms p ∖ ps
  /\ (variants p <> [] ->
      get_platforms (add_platforms p ps) = get_platforms p ∪ ps)
  /\ (variants p = [] ->
      add_platforms p ps = p /\ get_platforms (add_platforms p ps) = ∅).
Proof.
  intros Hlaw. split; [|split].
  - apply set_eq. intros x.
    rewrite elem_of_difference, !elem_of_get_platforms.
    cbn [remove_platforms set_variants variants]. split.
    + intros (v & Hv & Hx).
      apply list_elem_of_fmap in Hv as (v0 & -> & Hv0).
      rewrite (proj2 (Hlaw v0 ps)), elem_of_difference in Hx.
      destruct Hx as [Hx Hn]. split; [eauto | exact Hn].
    + intros [(v & Hv & Hx) Hn].
      exists (Variant_remove_platforms v ps). split.
      * apply list_elem_of_fmap. eauto.
      * rewrite (proj2 (Hlaw v ps)), elem_of_difference. auto.
  - intros Hne. apply set_eq. intros x.
    rewrite elem_of_union, !elem_of_get_platforms.
    cbn [add_platforms set_variants variants]. split.
    + intros (v & Hv & Hx).
      apply list_elem_of_fmap in Hv as (v0 & -> & Hv0).
      rewrite (proj1 (Hlaw v0 ps)), elem_of_union in Hx.
      destruct Hx as [Hx|Hx]; [left; eauto | right; exact Hx].
    + intros [(v & Hv & Hx)|Hx].
      * exists (Variant_add_platforms v ps). split.
        -- apply list_elem_of_fmap. eauto.
        -- rewrite (proj1 (Hlaw v ps)), elem_of_union. auto.
      * destruct (variants p) as [|v vs] eqn:E; [contradiction|].
        exists (Variant_add_platforms v ps). split; [left|].
        rewrite (proj1 (Hlaw v ps)), elem_of_union. auto.
  - intros E. unfold add_platforms, get_platforms, set_variants.
    cbn [variants]. rewrite E. cbn [map fold_left]. split; [|reflexivity].
    destruct p. cbn in *. subst. reflexivity.
Qed.

(** X21. [label] hands every variant its own position in the list, the name of
    the pass and the material name, and keeps the list in its order and
    length. *)
Theorem label_positions (p : Pass) material_name i :
  variants (label p material_name) !! i
  = (fun v => Variant_label v material_name (name p) i) <$> variants p !! i
  /\ length (variants (label p material_name)) = length (variants p)
  /\ name (label p material_name) = name p.
Proof.
  unfold label. cbn [set_variants variants name].
  rewrite list_lookup_imap, length_imap. auto.
Qed.

End Queries.

(** ** The further properties at work on the sample instances *)
Module MoreExamples.
Import Sample Sample_facts.

Lemma wf_by_decide {V} (d : dict V) :
  bool_decide (NoDup (Dict.keys d)) = true -> Dict.wf d.
Proof. intros H. exact (bool_decide_eq_true_1 _ H). Defined.

Lemma distinct_pair {Body} (a b : Variant Body) :
  ~ flags_match b a -> flags_distinct [a; b].
Proof.
  intros H i j v w Hij Hi Hj.
  destruct i as [|i].
  - destruct j as [|[|j]]; [lia | | discriminate].
    cbn in Hi, Hj. injection Hi as <-. injection Hj as <-. exact H.
  - destruct i as [|i]; [|discriminate].
    destruct j as [|[|j]]; [lia | lia | discriminate].
Defined.

Lemma distinct_single {Body} (a : Variant Body) : flags_distinct [a].
Proof.
  intros i j v w Hij Hi Hj.
  destruct i as [|i]; [|discriminate].
  destruct j as [|j]; [lia | discriminate].
Defined.

Lemma read_two_records_witness :
  exists p1' p2' : SPass,
    read Pass_init (pass_a_bytes ++ pass_a_bytes) = Ok (p1', pass_a_bytes)
    /\ read Pass_init pass_a_bytes = Ok (p2', [])
    /\ write p1' = Ok pass_a_bytes /\ write p2' = Ok pass_a_bytes.
Proof.
  apply (read_two_records pass_a pass_a pass_a_bytes pass_a_bytes
           platforms_faithful variants_faithful).
  - reflexivity.
  - reflexivity.
  - apply wf_by_decide. reflexivity.
  - apply wf_by_decide. reflexivity.
  - reflexivity.
  - reflexivity.
Defined.

Lemma read_needs_fixed_fields_witness :
  read Pass_init terrain_bytes = Ok (terrain_read, [])
  /\ 11 + blen (name terrain_read) + blen (fallback_pass terrain_read)
     <= Z.of_nat (length terrain_bytes).
Proof.
  split; [reflexivity|].
  apply (read_needs_fixed_fields (Pass_init : SPass) terrain_read
           terrain_bytes []).
  reflexivity.
Defined.

Lemma read_default_variant_last_wins_witness :
  exists dv,
    read_default_variant 3
      (enc_items [("a", "0"); ("b", "1"); ("a", "2")]%string ++ []) []
    = Ok (dv, [])
    /\ Dict.wf dv
    /\ Dict.keys dv = ["a"; "b"]%string
    /\ (length dv <= 3)%nat
    /\ forall k,
         Dict.get k dv
         = last_value k [("a", "0"); ("b", "1"); ("a", "2")]%string.
Proof.
  apply (proj1 (read_default_variant_last_wins
                  (BlendMode := Mode) (SupportedPlatforms := string)
                  (Body := string))
               [("a", "0"); ("b", "1"); ("a", "2")]%string []).
  constructor; [split; vm_compute; discriminate|].
  constructor; [split; vm_compute; discriminate|].
  constructor; [split; vm_compute; discriminate|]. constructor.
Defined.

Lemma write_injective_witness :
  write terrain = Ok terrain_bytes
  /\ write terrain_read = Ok terrain_bytes
  /\ default_variant terrain = default_variant terrain_read
  /\ length (variants terrain) = length (variants terrain_read).
Proof.
  assert (H1 : write terrain = Ok terrain_bytes) by reflexivity.
  assert (H2 : write terrain_read = Ok terrain_bytes) by reflexivity.
  split; [exact H1|]. split; [exact H2|].
  destruct (write_injective terrain terrain_read terrain_bytes H1 H2)
    as (_ & _ & _ & _ & _ & Hd & Hl & _).
  auto.
Defined.

Lemma load_serialize_properties_witness :
  load EnumSample.glow (serialize_properties EnumSample.plain) "mats"
  = Ok EnumSample.plain
  /\ load EnumSample.plain (serialize_properties EnumSample.glow) "mats"
     = Err UnknownBlendModeError.
Proof.
  split.
  - exact (proj1 (load_serialize_properties EnumSample.glow EnumSample.plain
                    "mats" "0110"%string eq_refl) [] eq_refl eq_refl).
  - assert (Hsp : SupportedPlatforms_load
                    (supported_platforms EnumSample.plain)
                    (SupportedPlatforms_serialize
                       (supported_platforms EnumSample.glow))
                  = Ok "0110"%string) by reflexivity.
    apply (proj2 (load_serialize_properties EnumSample.plain EnumSample.glow
                    "mats" "0110"%string Hsp)
                 EnumSample_facts.call_by_value);
      discriminate.
Defined.

Lemma load_blend_mode_null_or_falsy_witness :
  load terrain [("default_blend_mode", JNull)]%string "." = Ok terrain
  /\ default_blend_mode terrain = Blend.
Proof.
  assert (H : load terrain [("default_blend_mode", JNull)]%string "."
              = Ok terrain) by reflexivity.
  split; [exact H|].
  exact (proj1 (load_blend_mode_null_or_falsy terrain terrain
                  [("default_blend_mode", JNull)]%string "." H)
               eq_refl).
Defined.

Lemma load_replaces_variants_witness :
  exists p' : SPass,
    load terrain [("variants", JArr [])]%string "." = Ok p'
    /\ length (variants p') = 0%nat.
Proof.
  eexists. split; [reflexivity|].
  refine (proj1 (load_replaces_variants terrain _
                   [("variants", JArr [])]%string "." [] _ eq_refl)).
  reflexivity.
Defined.

Lemma load_again_witness :
  exists p1 : SPass,
    load terrain water_tree "mats" = Ok p1
    /\ load p1 water_tree "mats" = Ok p1.
Proof.
  eexists. split; [reflexivity|].
  apply (load_again terrain _ water_tree "mats"); reflexivity.
Defined.

Lemma merge_variants_keeps_distinct_witness :
  flags_distinct (variants pass_a)
  /\ flags_distinct (variants (merge_variants pass_a pass_b)).
Proof.
  assert (H : flags_distinct (variants pass_a)) by apply distinct_single.
  split; [exact H|].
  apply (merge_variants_keeps_distinct pass_a pass_b merge_flags H).
Defined.

Lemma merge_variants_covers_witness :
  exists v,
    v ∈ variants (merge_variants pass_a pass_b)
    /\ flags_match (mkVariant [("x", "2")] "essl")%string v.
Proof.
  apply (merge_variants_covers pass_a pass_b _ merge_flags).
  - right. left.
  - apply wf_by_decide. reflexivity.
Defined.

Lemma merge_variants_all_matched_witness :
  flags <$> variants (merge_variants pass_b pass_a) = flags <$> variants pass_b
  /\ length (variants (merge_variants pass_b pass_a))
     = length (variants pass_b).
Proof.
  apply (merge_variants_all_matched pass_b pass_a merge_flags).
  constructor; [|constructor].
  apply Exists_cons_hd. reflexivity.
Defined.

Lemma merge_variants_into_empty_witness :
  variants (merge_variants terrain_reread pass_b) = variants pass_b.
Proof.
  apply (merge_variants_into_empty terrain_reread pass_b eq_refl).
  apply distinct_pair. unfold flags_match. cbn. discriminate.
Defined.

Lemma sort_variants_canonical_witness :
  default_variant (sort_variants shuffled)
  = default_variant (sort_variants (sort_variants shuffled)).
Proof.
  apply (proj1 (sort_variants_canonical shuffled (sort_variants shuffled))).
  - apply wf_by_decide. reflexivity.
  - apply perm_swap.
Defined.

Lemma sort_flags_keeps_match_witness :
  flags_match (sort_flags (mkVariant [("y", "1"); ("x", "2")] "a"))
              (sort_flags (mkVariant [("x", "2"); ("y", "1")] "b"))%string.
Proof.
  apply (sort_flags_keeps_match
           (mkVariant [("y", "1"); ("x", "2")] "a")
           (mkVariant [("x", "2"); ("y", "1")] "b"))%string.
  - apply wf_by_decide. reflexivity.
  - apply wf_by_decide. reflexivity.
  - reflexivity.
Defined.

Lemma sort_variants_keeps_definitions_witness :
  takes_value (get_flag_definitions (sort_variants shuffled)) "x" "2"
  <-> takes_value (get_flag_definitions shuffled) "x" "2".
Proof.
  apply (sort_variants_keeps_definitions shuffled "x" "2").
  - apply wf_by_decide. reflexivity.
  - constructor; [apply wf_by_decide; reflexivity|].
    constructor; [apply wf_by_decide; reflexivity|]. constructor.
Defined.

Lemma platforms_law :
  Variant_platforms_law (Body := gset string) (Platform := string)
    (Stage := string).
Proof. intros v ps. split; reflexivity. Qed.

Lemma add_remove_platforms_spec_witness :
  get_platforms
    (remove_platforms SampleSets.two_platforms {["gl"]}%string)
  = get_platforms SampleSets.two_platforms ∖ {["gl"]}%string
  /\ add_platforms SampleSets.no_variants {["gl"]}%string
     = SampleSets.no_variants.
Proof.
  destruct (add_remove_platforms_spec SampleSets.two_platforms
              {["gl"]}%string platforms_law) as (Hr & _ & _).
  destruct (add_remove_platforms_spec SampleSets.no_variants
              {["gl"]}%string platforms_law) as (_ & _ & Ha).
  split; [exact Hr | exact (proj1 (Ha eq_refl))].
Defined.

End MoreExamples.
